(** * Decoy traffic subsystem of the Meson mix server

    Shallow embedding of [internal/decoy/decoy.go]: the token store and
    expiry index behind the decoy's lock ([storeSURBCtx],
    [loadAndDeleteSURBCtx], [sweepSURBCtxs]), the reply handler
    ([OnPacket]), the packet builder ([sendDecoyPacket], [sendLoopPacket],
    [dispatchPacket]) and one iteration of the scheduler loop ([worker]).

    Go pointers are addresses into explicit heaps, Go panics are the
    [Panic] outcome of an error monad, 64-bit integers are [Z] with the
    wrap-around written out, and every call that leaves the package
    (clocks, random numbers, path selection, Sphinx, the PKI, the
    configuration) reads its answer from an environment record. *)

From stdpp Require Import gmap strings list fin_maps sorting.
From Stdlib Require Import ZArith Lia.

Local Open Scope Z_scope.

(** ** Machine integers *)

(** [int64] values (Go's [time.Duration]) and [uint64] values. *)
Definition wrap64 (z : Z) : Z := (z + 2 ^ 63) mod 2 ^ 64 - 2 ^ 63.
Definition wrapu64 (z : Z) : Z := z mod 2 ^ 64.
Definition in_int64 (z : Z) : Prop := - 2 ^ 63 <= z < 2 ^ 63.

(** [time.Millisecond] in nanoseconds. *)
Definition Millisecond : Z := 1000000.

(** [time.Duration(x) * time.Millisecond]. *)
Definition msec_to_duration (x : Z) : Z := wrap64 (wrap64 x * Millisecond).

(** [binary.BigEndian.Uint64] over the first eight bytes of a slice. *)
Definition BigEndian_Uint64 (b : list Z) : Z :=
  foldl (fun acc x => acc * 256 + x mod 256) 0 (take 8 b).

(** [binary.BigEndian.PutUint64]: the eight bytes of [v], most significant
    first. *)
Definition BigEndian_PutUint64 (v : Z) : list Z :=
  (fun k => (wrapu64 v / 256 ^ k) mod 256) <$> [7; 6; 5; 4; 3; 2; 1; 0].

(** ** Panics *)

Inductive result (A : Type) : Type :=
  | Ok (a : A)
  | Panic (msg : string).
Arguments Ok {A} a.
Arguments Panic {A} msg.

#[global] Instance result_ret : MRet result := fun A a => Ok a.
#[global] Instance result_bind : MBind result := fun A B f r =>
  match r with
  | Ok a => f a
  | Panic msg => Panic msg
  end.


(** ** Data model *)

(** [surbCtx]; [etaNode] is the back pointer to the index node ([None] is
    Go's [nil]). Contexts and nodes live in heaps and are named by their
    address, so pointer comparisons in the source are address comparisons
    here. *)
Record surbCtx : Type := SurbCtx {
  id : Z;
  eta : Z;
  sprpKey : list Z;
  etaNode : option nat;
}.

(** The [interface{}] held by an [avl.Node]: the source stores a
    [[]*surbCtx] there, and in one place a [*surbCtx]. *)
Inductive value : Type :=
  | VSlice (g : list nat)
  | VCtxPtr (p : option nat).

(** The fields of [decoy] that the handlers touch, with the two heaps.
    [surbETAs] is the AVL tree, represented by its nodes in ascending
    (in-order) sequence; the [Value] of a node is in [nodeHeap], so it
    stays readable through a pointer after the node left the tree. *)
Record decoy : Type := Decoy {
  recipient : list Z;
  surbETAs : list nat;
  surbStore : gmap Z nat;
  surbIDBase : Z;
  ctxHeap : gmap nat surbCtx;
  nodeHeap : gmap nat value;
}.

Definition set_surbETAs (f : list nat -> list nat) (d : decoy) : decoy :=
  Decoy (recipient d) (f (surbETAs d)) (surbStore d) (surbIDBase d)
        (ctxHeap d) (nodeHeap d).
Definition set_surbStore (f : gmap Z nat -> gmap Z nat) (d : decoy) : decoy :=
  Decoy (recipient d) (surbETAs d) (f (surbStore d)) (surbIDBase d)
        (ctxHeap d) (nodeHeap d).
Definition set_ctxHeap (f : gmap nat surbCtx -> gmap nat surbCtx) (d : decoy)
  : decoy :=
  Decoy (recipient d) (surbETAs d) (surbStore d) (surbIDBase d)
        (f (ctxHeap d)) (nodeHeap d).
Definition set_nodeHeap (f : gmap nat value -> gmap nat value) (d : decoy)
  : decoy :=
  Decoy (recipient d) (surbETAs d) (surbStore d) (surbIDBase d)
        (ctxHeap d) (f (nodeHeap d)).

(** [ctx.etaNode = p] *)
Definition set_etaNode (a : nat) (p : option nat) (d : decoy) : decoy :=
  set_ctxHeap (alter (fun c => SurbCtx (id c) (eta c) (sprpKey c) p) a) d.

(** The state [New] builds: empty tree, empty map. *)
Definition New (rcpt : list Z) (base : Z) : decoy :=
  Decoy rcpt [] ∅ (wrapu64 base) ∅ ∅.

(** ** Go primitives that can panic *)

Definition deref (d : decoy) (a : nat) : result surbCtx :=
  match ctxHeap d !! a with
  | Some c => Ok c
  | None => Panic "invalid memory address or nil pointer dereference"
  end.

Definition node_Value (d : decoy) (n : nat) : result value :=
  match nodeHeap d !! n with
  | Some v => Ok v
  | None => Panic "invalid memory address or nil pointer dereference"
  end.

(** [v.([]*surbCtx)] *)
Definition as_slice (v : value) : result (list nat) :=
  match v with
  | VSlice g => Ok g
  | VCtxPtr _ => Panic "interface conversion: not []*decoy.surbCtx"
  end.

(** [g[0]] *)
Definition index0 (g : list nat) : result nat :=
  match g with
  | a :: _ => Ok a
  | [] => Panic "index out of range [0] with length 0"
  end.

(** ** The expiry index *)

(** The comparison closure [New] hands to [avl.New]. *)
Definition cmpFn (d : decoy) (a b : value) : result comparison :=
  surbCtxsA ← as_slice a;
  surbCtxsB ← as_slice b;
  a0 ← index0 surbCtxsA;
  ca ← deref d a0;
  b0 ← index0 surbCtxsB;
  cb ← deref d b0;
  Ok (eta ca ?= eta cb).

Inductive inserted : Type :=
  | Existing (n : nat)
  | Created (nodes : list nat).

(** The search of [Tree.Insert], over the in-order sequence: the value goes
    before the first node that compares greater, and a node that compares
    equal is returned instead. (The tree descends from its root and calls
    [cmpFn] on fewer nodes; on a tree whose nodes all compare without a
    panic, and on a tree of at most one node, the outcome is the same.) *)
Fixpoint avl_search (d : decoy) (v : value) (new : nat) (nodes : list nat)
  : result inserted :=
  match nodes with
  | [] => Ok (Created [new])
  | cur :: rest =>
      curv ← node_Value d cur;
      c ← cmpFn d v curv;
      match c with
      | Lt => Ok (Created (new :: cur :: rest))
      | Eq => Ok (Existing cur)
      | Gt =>
          r ← avl_search d v new rest;
          match r with
          | Existing n => Ok (Existing n)
          | Created rest' => Ok (Created (cur :: rest'))
          end
      end
  end.

(** [Tree.Insert]: the new node, or the node already holding an equal
    value. *)
Definition avl_Insert (v : value) (d : decoy) : result (nat * decoy) :=
  let new := fresh (dom (nodeHeap d)) in
  r ← avl_search d v new (surbETAs d);
  match r with
  | Existing n => Ok (n, d)
  | Created nodes =>
      Ok (new, set_nodeHeap <[new := v]> (set_surbETAs (fun _ => nodes) d))
  end.

(** [Tree.Remove] *)
Definition avl_Remove (n : nat) (d : decoy) : decoy :=
  set_surbETAs (filter (fun m => m ≠ n)) d.

(** [Tree.Len] *)
Definition avl_Len (d : decoy) : nat := length (surbETAs d).

(** ** Token lifecycle manager *)

(** [&surbCtx{id: .., eta: .., sprpKey: ..}] *)
Definition new_surbCtx (i e : Z) (k : list Z) (d : decoy) : nat * decoy :=
  let a := fresh (dom (ctxHeap d)) in
  (a, set_ctxHeap <[a := SurbCtx i e k None]> d).

Definition storeSURBCtx (ctx : nat) (d : decoy) : result decoy :=
  let ctxList := [ctx] in
  '(n, d) ← avl_Insert (VSlice ctxList) d;
  _ ← deref d ctx;
  let d := set_etaNode ctx (Some n) d in
  v ← node_Value d n;
  nCtxList ← as_slice v;
  c0 ← index0 nCtxList;
  let d :=
    if decide (c0 ≠ ctx)
    then set_nodeHeap <[n := VSlice (nCtxList ++ [ctx])]> d
    else d in
  c ← deref d ctx;
  Ok (set_surbStore <[id c := ctx]> d).

(** What the [l > 1] branch of [loadAndDeleteSURBCtx] leaves in the node:
    [copy(nCtxList[i:], nCtxList[i+1:])], [nCtxList[l-1] = nil], and then
    the element [nCtxList[l-1]] becomes the node's [Value]. *)
Definition shrunk_value (nCtxList : list nat) (i : nat) : value :=
  let l := length nCtxList in
  let copied :=
    take i nCtxList ++ drop (S i) nCtxList ++ drop (l - 1) nCtxList in
  let cleared := <[(l - 1)%nat := None]> (Some <$> copied) in
  VCtxPtr (default None (cleared !! (l - 1)%nat)).

Definition loadAndDeleteSURBCtx (i : Z) (d : decoy)
  : result (option nat * decoy) :=
  match surbStore d !! i with
  | None => Ok (None, d)
  | Some ctx =>
      let d := set_surbStore (delete i) d in
      c ← deref d ctx;
      n ← match etaNode c with
          | Some n => Ok n
          | None => Panic "invalid memory address or nil pointer dereference"
          end;
      v ← node_Value d n;
      nCtxList ← as_slice v;
      if decide (1 < length nCtxList)%nat then
        match list_find (fun v => v = ctx) nCtxList with
        | Some (k, _) =>
            let d := set_nodeHeap <[n := shrunk_value nCtxList k]> d in
            Ok (Some ctx, set_etaNode ctx None d)
        | None => Panic "BUG: SURB missing from node ETA list"
        end
      else
        c0 ← index0 nCtxList;
        if decide (c0 ≠ ctx) then Panic "BUG: SURB mismatch in node ETA list"
        else Ok (Some ctx, set_etaNode ctx None (avl_Remove n d))
  end.

(** The inner loop of the sweep: every context of the group leaves the
    map, and its id is logged as lost. *)
Fixpoint sweep_group (g : list nat) (lost : list Z) (d : decoy)
  : result (list Z * decoy) :=
  match g with
  | [] => Ok (lost, d)
  | ctx :: g' =>
      c ← deref d ctx;
      sweep_group g' (lost ++ [id c]) (set_surbStore (delete (id c)) d)
  end.

(** The outer loop, over the nodes the forward iterator yields. *)
Fixpoint sweep_nodes (now slack : Z) (nodes : list nat) (lost : list Z)
    (d : decoy) : result (list Z * decoy) :=
  match nodes with
  | [] => Ok (lost, d)
  | node :: rest =>
      v ← node_Value d node;
      surbCtxs ← as_slice v;
      c0 ← index0 surbCtxs;
      first ← deref d c0;
      if decide (wrap64 (eta first + slack) > now) then Ok (lost, d)
      else
        '(lost, d) ← sweep_group surbCtxs lost d;
        sweep_nodes now slack rest lost (avl_Remove node d)
  end.

(** [sweepSURBCtxs], with the clock reading [now] and the configured
    [DecoySlack] (milliseconds) as arguments. The result lists the ids
    logged as lost, in order; [swept] is their number. *)
Definition sweepSURBCtxs (now DecoySlack : Z) (d : decoy)
  : result (list Z * decoy) :=
  if decide (avl_Len d = 0%nat) then Ok ([], d)
  else
    let slack := msec_to_duration DecoySlack in
    sweep_nodes now slack (surbETAs d) [] d.

(** ** Observations on a state *)

(** The ids in the token store. *)
Definition store_ids (d : decoy) : gset Z := dom (surbStore d).

(** The group a node holds; a node whose [Value] is not a slice holds
    none. *)
Definition group_of (d : decoy) (n : nat) : list nat :=
  match nodeHeap d !! n with
  | Some (VSlice g) => g
  | _ => []
  end.

(** The ids of the live contexts of a group. *)
Definition group_ids (d : decoy) (g : list nat) : list Z :=
  a ← g;
  match ctxHeap d !! a with
  | Some c => [id c]
  | None => []
  end.

(** The ids met by iterating nodes: every member of every node's group,
    in order. *)
Definition ids_of (d : decoy) (nodes : list nat) : list Z :=
  n ← nodes; group_ids d (group_of d n).

(** The ids met by iterating the index. *)
Definition index_ids (d : decoy) : list Z := ids_of d (surbETAs d).

(** The lifecycle bijection: the store and the index hold the same ids. *)
Definition bijection (d : decoy) : Prop :=
  store_ids d = list_to_set (index_ids d).

(** The key a node is ordered by: the [eta] of the first member. *)
Definition node_eta (d : decoy) (n : nat) : Z :=
  match group_of d n with
  | a :: _ => match ctxHeap d !! a with Some c => eta c | None => 0 end
  | [] => 0
  end.

(** ** Invariants of the data model *)

(** A member of the group of node [n]: a live context with the key of the
    node, pointing back to the node, and found in the store under its
    id. *)
Definition member_ok (d : decoy) (n a : nat) : Prop :=
  ∃ c, ctxHeap d !! a = Some c ∧ eta c = node_eta d n ∧
       etaNode c = Some n ∧ surbStore d !! id c = Some a.

(** The index is ordered ascending by key, no group is empty or lists a
    context twice, and the store and the index reach the same contexts. *)
Record Inv (d : decoy) : Prop := MkInv {
  inv_sorted :
    StronglySorted (fun n m => node_eta d n < node_eta d m) (surbETAs d);
  inv_nodes : ∀ n, n ∈ surbETAs d →
    group_of d n ≠ [] ∧ NoDup (group_of d n) ∧
    ∀ a, a ∈ group_of d n → member_ok d n a;
  inv_store : ∀ i a, surbStore d !! i = Some a →
    ∃ c n, ctxHeap d !! a = Some c ∧ id c = i ∧ etaNode c = Some n ∧
           n ∈ surbETAs d ∧ a ∈ group_of d n;
}.

(** The same, as a check that runs. *)
Definition wf_member (d : decoy) (n a : nat) : bool :=
  match ctxHeap d !! a with
  | Some c =>
      bool_decide (eta c = node_eta d n) &&
      bool_decide (etaNode c = Some n) &&
      bool_decide (surbStore d !! id c = Some a)
  | None => false
  end.

Definition wf_node (d : decoy) (n : nat) : bool :=
  bool_decide (group_of d n ≠ []) && bool_decide (NoDup (group_of d n)) &&
  forallb (wf_member d n) (group_of d n).

Definition wf_entry (d : decoy) (ia : Z * nat) : bool :=
  match ctxHeap d !! ia.2 with
  | Some c =>
      bool_decide (id c = ia.1) &&
      match etaNode c with
      | Some n =>
          bool_decide (n ∈ surbETAs d) && bool_decide (ia.2 ∈ group_of d n)
      | None => false
      end
  | None => false
  end.

Definition wf (d : decoy) : bool :=
  bool_decide
    (StronglySorted (fun n m => node_eta d n < node_eta d m) (surbETAs d)) &&
  forallb (wf_node d) (surbETAs d) &&
  forallb (wf_entry d) (map_to_list (surbStore d)).

(** [eta + slack] stays in the range of a [time.Duration] for every
    context in the store. *)
Definition within (slack : Z) (d : decoy) : Prop :=
  ∀ i a c, surbStore d !! i = Some a → ctxHeap d !! a = Some c →
           in_int64 (eta c + slack).

(** The same, as a check that runs. *)
Definition fits_entry (slack : Z) (d : decoy) (ia : Z * nat) : bool :=
  match ctxHeap d !! ia.2 with
  | Some c =>
      bool_decide (- 2 ^ 63 <= eta c + slack) &&
      bool_decide (eta c + slack < 2 ^ 63)
  | None => true
  end.

Definition fits (slack : Z) (d : decoy) : bool :=
  forallb (fits_entry slack d) (map_to_list (surbStore d)).

(** ** Events and counters *)

(** A packet as [OnPacket] reads it. [SurbReply_ID] is the 16-byte
    [SurbReply.ID] array. *)
Record packet : Type := Packet {
  pkt_ID : Z;
  IsSURBReply : bool;
  Recipient_ID : list Z;
  SurbReply_ID : list Z;
  Payload : list Z;
  RecvAt : Z;
}.

(** A packet as [dispatchPacket] hands it to the connector. *)
Record outPacket : Type := OutPacket {
  Raw : list Z;
  NextNodeHop_ID : list Z;
  DispatchAt : Z;
}.

(** The calls that matter for ordering, in the order they are made. *)
Inductive event : Type :=
  | EvStore (ctx : nat)
  | EvLoadAndDelete (i : Z)
  | EvSweep (now : Z)
  | EvSendDecoy (epoch : Z)
  | EvDispatch (p : outPacket).

(** The decoy with the Prometheus counters ([pkiDocs] by epoch label) and
    the record of calls. *)
Record world : Type := World {
  dec : decoy;
  packetsDropped : nat;
  ignoredPKIDocs : nat;
  pkiDocs : gmap Z nat;
  trace : list event;
}.

Definition set_dec (d : decoy) (w : world) : world :=
  World d (packetsDropped w) (ignoredPKIDocs w) (pkiDocs w) (trace w).
Definition record (e : event) (w : world) : world :=
  World (dec w) (packetsDropped w) (ignoredPKIDocs w) (pkiDocs w)
        (trace w ++ [e]).
(** [packetsDropped.Inc()] *)
Definition packetsDropped_Inc (w : world) : world :=
  World (dec w) (S (packetsDropped w)) (ignoredPKIDocs w) (pkiDocs w)
        (trace w).

Definition d_storeSURBCtx (ctx : nat) (w : world) : result world :=
  d ← storeSURBCtx ctx (dec w);
  Ok (set_dec d (record (EvStore ctx) w)).

Definition d_loadAndDeleteSURBCtx (i : Z) (w : world)
  : result (option nat * world) :=
  '(r, d) ← loadAndDeleteSURBCtx i (dec w);
  Ok (r, set_dec d (record (EvLoadAndDelete i) w)).


(** The packets handed to the connector, in order. *)
Definition dispatched (w : world) : list outPacket :=
  omap (fun ev => match ev with EvDispatch p => Some p | _ => None end)
       (trace w).

(** ** Reply handler *)

(** [subtle.ConstantTimeCompare] *)
Definition ConstantTimeCompare (x y : list Z) : Z :=
  if decide (x = y) then 1 else 0.

(** [OnPacket]. [DecryptSURBPayload] is the Sphinx primitive, [None] on
    error. *)
Definition OnPacket (DecryptSURBPayload : list Z -> list Z -> option (list Z))
    (pkt : packet) (w : world) : result world :=
  if negb (IsSURBReply pkt)
  then Panic "BUG: OnPacket called with non-SURB Reply"
  else if decide (ConstantTimeCompare (Recipient_ID pkt)
                                      (recipient (dec w)) ≠ 1)
  then Ok (packetsDropped_Inc w)
  else
    let idBase := BigEndian_Uint64 (drop 0 (SurbReply_ID pkt)) in
    let i := BigEndian_Uint64 (drop 8 (SurbReply_ID pkt)) in
    if decide (idBase ≠ surbIDBase (dec w)) then Ok (packetsDropped_Inc w)
    else
      '(ctx, w) ← d_loadAndDeleteSURBCtx i w;
      match ctx with
      | None => Ok (packetsDropped_Inc w)
      | Some a =>
          c ← deref (dec w) a;
          match DecryptSURBPayload (Payload pkt) (sprpKey c) with
          | None => Ok (packetsDropped_Inc w)
          | Some _ => Ok w
          end
      end.

(** ** Topology snapshot *)





(** ** Packet builder *)

(** A path, by the node id of each hop. *)
Definition path : Type := list (list Z).

(** [time.Time.Sub]: the difference, saturated to the range of a
    [time.Duration]. *)
Definition time_Sub (t u : Z) : Z :=
  Z.max (- 2 ^ 63) (Z.min (2 ^ 63 - 1) (t - u)).

(** What the outside answers during one pass of the retry loop. [None] is
    a non-nil [err]; [NewSURB] gives the SURB, the key and whether [err]
    is non-nil. *)
Record attempt : Type := Attempt {
  time_Now : Z;
  path_New_fwd : option (path * Z);
  path_New_rev : option (path * Z);
  sphinx_NewSURB : path -> list Z * list Z * bool;
  monotime_Now : Z;
  sphinx_NewPacket : path -> list Z -> option (list Z);
  packet_New : list Z -> bool;
  dispatch_monotime_Now : Z;
}.

(** What the outside answers during one call of [sendDecoyPacket]. *)
Record builder_env : Type := BuilderEnv {
  rng_Perm : nat -> list nat;
  rng_Uint64 : Z;
  attempts : nat -> attempt;
}.

Definition maxAttempts : nat := 3.

Section Builder.

(** Constants of the imported packages: [epochtime.TestPeriod],
    [constants.UserForwardPayloadLength], [sphinx.SURBLength],
    [pki.LayerProvider] and [kaetzchen.LoopCapability]. *)
Variable TestPeriod : Z.
Variable UserForwardPayloadLength : nat.
Variable SURBLength : nat.
Variable LayerProvider : Z.
Variable LoopCapability : string.

(** [dispatchPacket] *)
Definition dispatchPacket (e : attempt) (fwdPath : path) (raw : list Z)
    (w : world) : result world :=
  if negb (packet_New e raw) then Ok w
  else
    match fwdPath with
    | [] => Panic "index out of range [0] with length 0"
    | hop :: _ =>
        let pkt := OutPacket raw hop (dispatch_monotime_Now e) in
        Ok (record (EvDispatch pkt) w)
    end.

(** [makeSURBID] *)
Definition makeSURBID (env : builder_env) (d : decoy) : list Z :=
  BigEndian_PutUint64 (surbIDBase d) ++ BigEndian_PutUint64 (rng_Uint64 env).

(** The payload of a loop packet, as [sendLoopPacket] assembles it. *)
Definition loop_payload (surb : list Z) : list Z :=
  let zeroBytes := replicate UserForwardPayloadLength 0 in
  let payload := replicate 2 0 in
  let payload := <[0%nat := 1]> payload in
  let payload := payload ++ surb in
  payload ++ zeroBytes.

(** The body of a pass of [sendLoopPacket] once both paths are there and
    [deltaT] is within the time budget: SURB, payload, token context,
    store, Sphinx packet, dispatch. *)
Definition build_and_send (e : attempt) (fwdPath revPath : path) (deltaT : Z)
    (surbID : list Z) (w : world) : result world :=
  let '(surb, key, _) := sphinx_NewSURB e revPath in
  let payload := loop_payload surb in
  let '(ctx, d) :=
    new_surbCtx (BigEndian_Uint64 (drop 8 surbID))
                (wrap64 (monotime_Now e + deltaT)) key (dec w) in
  w ← d_storeSURBCtx ctx (set_dec d w);
  match sphinx_NewPacket e fwdPath payload with
  | None => Ok w
  | Some pkt => dispatchPacket e fwdPath pkt w
  end.

(** The retry loop of [sendLoopPacket]; [n] passes are left and [k] were
    made. *)
Fixpoint loop_attempts (n k : nat) (env : builder_env) (surbID : list Z)
    (w : world) : result world :=
  match n with
  | O => Ok w
  | S n' =>
      let e := attempts env k in
      let now := time_Now e in
      match path_New_fwd e with
      | None => Ok w
      | Some (fwdPath, _) =>
          match path_New_rev e with
          | None => Ok w
          | Some (revPath, then_) =>
              let deltaT := time_Sub then_ now in
              if decide (deltaT < TestPeriod * 2)
              then build_and_send e fwdPath revPath deltaT surbID w
              else loop_attempts n' (S k) env surbID w
          end
      end
  end.

Definition sendLoopPacket (env : builder_env) (w : world) : result world :=
  let surbID := makeSURBID env (dec w) in
  loop_attempts maxAttempts 0 env surbID w.





(** ** Scheduler *)







(** ** Passes of the retry loop *)



End Builder.

(** ** What a sweep does, in closed form *)

(** A node the iterator can read: a non-empty group of live contexts. *)
Definition good_node (d : decoy) (n : nat) : Prop :=
  group_of d n ≠ [] ∧ ∀ a, a ∈ group_of d n → is_Some (ctxHeap d !! a).

(** The test of the sweep on a node, negated: the node is due. *)
Definition expired (now slack : Z) (d : decoy) (n : nat) : Prop :=
  wrap64 (node_eta d n + slack) <= now.

Definition delete_all (ids : list Z) (s : gmap Z nat) : gmap Z nat :=
  foldl (fun s i => delete i s) s ids.

Definition remove_all (pre : list nat) (t : list nat) : list nat :=
  foldl (fun t n => filter (fun m => m ≠ n) t) t pre.

(** The state after the nodes [pre] were swept. *)
Definition swept (pre : list nat) (d : decoy) : decoy :=
  set_surbETAs (remove_all pre) (set_surbStore (delete_all (ids_of d pre)) d).

(** ** What a store does, in closed form *)

(** The state after the context [a], with id [i], key [e] and SPRP key
    [key], was stored in node [n] of the tree [tree1]. *)
Definition stored (d : decoy) (i e : Z) (key : list Z) (a n : nat)
    (tree1 : list nat) : decoy :=
  Decoy (recipient d) tree1 (<[i := a]> (surbStore d)) (surbIDBase d)
        (<[a := SurbCtx i e key (Some n)]> (ctxHeap d))
        (<[n := VSlice (group_of d n ++ [a])]> (nodeHeap d)).

(** Where the node of a stored context is: an existing node with the same
    key, the tree unchanged; or a new node, in the place that keeps the
    tree ordered. *)
Definition placed (d : decoy) (e : Z) (n : nat) (tree1 : list nat) : Prop :=
  (n ∈ surbETAs d ∧ tree1 = surbETAs d ∧ node_eta d n = e) ∨
  (nodeHeap d !! n = None ∧
   ∃ l1 l2, surbETAs d = l1 ++ l2 ∧ tree1 = l1 ++ n :: l2 ∧
     (∀ m, m ∈ l1 → node_eta d m < e) ∧ (∀ m, m ∈ l2 → e < node_eta d m)).

(** ** Runs *)

(** [ctx := &surbCtx{..}] followed by [d.storeSURBCtx(ctx)], as in
    [sendLoopPacket]. *)
Definition store_new (i e : Z) (key : list Z) (d : decoy) : result decoy :=
  let '(ctx, d) := new_surbCtx i e key d in
  storeSURBCtx ctx d.

(** The three operations of the lifecycle manager, and runs of them. *)
Inductive op : Type :=
  | OpStore (i e : Z) (key : list Z)
  | OpTake (i : Z)
  | OpSweep (now DecoySlack : Z).

Definition apply_op (o : op) (d : decoy) : result decoy :=
  match o with
  | OpStore i e key => store_new i e key d
  | OpTake i => '(_, d) ← loadAndDeleteSURBCtx i d; Ok d
  | OpSweep now DecoySlack => '(_, d) ← sweepSURBCtxs now DecoySlack d; Ok d
  end.

Fixpoint run_ops (ops : list op) (d : decoy) : result decoy :=
  match ops with
  | [] => Ok d
  | o :: ops' => d ← apply_op o d; run_ops ops' d
  end.

(** The token with id [i], if stored, is the only member of its group. *)
Definition alone (d : decoy) (i : Z) : Prop :=
  match surbStore d !! i with
  | Some a =>
      ∃ n, etaNode <$> ctxHeap d !! a = Some (Some n) ∧ group_of d n = [a]
  | None => True
  end.

(** Operations that keep the invariants: a store under an id not in use,
    a retirement of a token that shares its key with no other, any
    sweep. *)
Definition safe_op (o : op) (d : decoy) : Prop :=
  match o with
  | OpStore i _ _ => surbStore d !! i = None
  | OpTake i => alone d i
  | OpSweep _ _ => True
  end.

Fixpoint safe_run (ops : list op) (d : decoy) : Prop :=
  match ops with
  | [] => True
  | o :: ops' =>
      safe_op o d ∧ ∀ d', apply_op o d = Ok d' → safe_run ops' d'
  end.

(** States used as concrete inputs below. *)
Definition overflow_state : decoy :=
  stored (New [] 0) 1 1000000 [] 0 0 [0%nat].

Definition overflow_state2 : decoy :=
  stored (stored (New [] 0) 1 0 [] 0 0 [0%nat]) 2 1000000 [] 1 1
         [0%nat; 1%nat].

Definition two_tokens : decoy :=
  stored (stored (New [] 0) 1 5 [] 0 0 [0%nat]) 2 7 [] 1 1 [0%nat; 1%nat].

(** A cycle of the packet builder with concrete answers: both paths are
    found within the budget on the first pass; [surb_err] and [packet_ok]
    say whether [sphinx.NewSURB] fails and whether [sphinx.NewPacket]
    succeeds. *)
Definition demo_attempt (surb_err packet_ok : bool) : attempt :=
  Attempt 1000 (Some ([[1]; [2]], 1500)) (Some ([[2]; [1]], 2000))
          (fun _ =>
             if surb_err then ([], [], true) else ([5; 6], [8; 9], false))
          7000
          (fun _ _ => if packet_ok then Some [42] else None)
          (fun _ => true)
          7001.

Definition demo_env (surb_err packet_ok : bool) : builder_env :=
  BuilderEnv (fun n => seq 0 n) 77 (fun _ => demo_attempt surb_err packet_ok).


Definition demo_world : world := World (New [3] 1600000000) 0 0 ∅ [].

(** The reply payload as the specification words it: one flag byte, the
    SURB right after it, zeros up to the user payload length [n]. *)
Definition claimed_payload (n : nat) (surb : list Z) : list Z :=
  [1] ++ surb ++ replicate (n - 1 - length surb) 0.




(** A reply whose SURB id carries base 5 and suffix 77. *)
Definition foreign_packet : packet :=
  Packet 1 true [3] (BigEndian_PutUint64 5 ++ BigEndian_PutUint64 77) [] 0.

(** * Properties *)

(** ** Integers *)

Lemma wrap64_id z : in_int64 z → wrap64 z = z.
Proof.
  unfold in_int64, wrap64. intros H.
  rewrite Z.mod_small by lia. lia.
Qed.

Lemma wrap64_range z : in_int64 (wrap64 z).
Proof.
  unfold in_int64, wrap64.
  pose proof (Z.mod_pos_bound (z + 2 ^ 63) (2 ^ 64)). lia.
Qed.

(** ** The checker is sound *)

Lemma forallb_elem_of {A} (f : A → bool) (l : list A) :
  forallb f l = true ↔ ∀ x, x ∈ l → f x = true.
Proof.
  rewrite forallb_forall. split; intros H x Hx; apply H;
    by apply list_elem_of_In.
Qed.

Lemma wf_member_ok d n a : wf_member d n a = true → member_ok d n a.
Proof.
  unfold wf_member, member_ok. destruct (ctxHeap d !! a) as [c|]; [|done].
  rewrite !andb_true_iff, !bool_decide_eq_true.
  intros [[H1 H2] H3]. by exists c.
Qed.

Lemma wf_Inv d : wf d = true → Inv d.
Proof.
  unfold wf. rewrite !andb_true_iff, bool_decide_eq_true, !forallb_elem_of.
  intros [[Hs Hn] He]. split.
  - done.
  - intros n Hin. specialize (Hn n Hin). unfold wf_node in Hn.
    rewrite !andb_true_iff, !bool_decide_eq_true, forallb_elem_of in Hn.
    destruct Hn as [[Hne Hnd] Hm]. split; [done|]. split; [done|].
    intros a Ha. by apply wf_member_ok, Hm.
  - intros i a Hia.
    specialize (He (i, a)). rewrite elem_of_map_to_list in He.
    specialize (He Hia). unfold wf_entry in He. simpl in He.
    destruct (ctxHeap d !! a) as [c|]; [|done].
    rewrite andb_true_iff, bool_decide_eq_true in He.
    destruct He as [Hid He]. destruct (etaNode c) as [n|] eqn:Hnode; [|done].
    rewrite andb_true_iff, !bool_decide_eq_true in He.
    destruct He as [Hin Hg]. by exists c, n.
Qed.

Lemma fits_within slack d : fits slack d = true → within slack d.
Proof.
  unfold fits. rewrite forallb_elem_of. intros H i a c Hi Hc.
  specialize (H (i, a)). rewrite elem_of_map_to_list in H.
  specialize (H Hi). unfold fits_entry in H. simpl in H. rewrite Hc in H.
  rewrite andb_true_iff, !bool_decide_eq_true in H. exact H.
Qed.

(** ** Consequences of the invariants *)

Lemma group_of_Some d n g :
  group_of d n = g → g ≠ [] → nodeHeap d !! n = Some (VSlice g).
Proof.
  unfold group_of. destruct (nodeHeap d !! n) as [[g'|]|]; congruence.
Qed.

Lemma group_ids_elem d g i :
  i ∈ group_ids d g ↔ ∃ a c, a ∈ g ∧ ctxHeap d !! a = Some c ∧ id c = i.
Proof.
  unfold group_ids. rewrite list_elem_of_bind. split.
  - intros (a & Hi & Ha).
    destruct (ctxHeap d !! a) as [c|] eqn:Hc; [|by apply elem_of_nil in Hi].
    apply list_elem_of_singleton in Hi. by exists a, c.
  - intros (a & c & Ha & Hc & Hi). exists a. split; [|done].
    rewrite Hc. subst. by apply list_elem_of_singleton.
Qed.

Lemma ids_of_elem d nodes i :
  i ∈ ids_of d nodes ↔
  ∃ n a c, n ∈ nodes ∧ a ∈ group_of d n ∧ ctxHeap d !! a = Some c ∧ id c = i.
Proof.
  unfold ids_of. rewrite list_elem_of_bind. split.
  - intros (n & Hi & Hn). apply group_ids_elem in Hi.
    destruct Hi as (a & c & Ha & Hc & Hi). by exists n, a, c.
  - intros (n & a & c & Hn & Ha & Hc & Hi). exists n. split; [|done].
    apply group_ids_elem. by exists a, c.
Qed.

(** Under the invariants the store and the index hold the same ids. *)
Lemma Inv_bijection d : Inv d → bijection d.
Proof.
  intros [Hs Hn He]. unfold bijection, store_ids, index_ids.
  apply set_eq. intros i.
  rewrite elem_of_dom, elem_of_list_to_set, ids_of_elem. split.
  - intros [a Ha]. destruct (He i a Ha) as (c & n & Hc & Hi & _ & Hin & Hg).
    by exists n, a, c.
  - intros (n & a & c & Hin & Ha & Hc & Hi).
    destruct (Hn n Hin) as (_ & _ & Hm).
    destruct (Hm a Ha) as (c' & ? & ? & ? & ?).
    exists a. congruence.
Qed.

Lemma Inv_New rcpt base : Inv (New rcpt base).
Proof.
  split; simpl.
  - constructor.
  - intros n Hn. by apply elem_of_nil in Hn.
  - intros i a H. by rewrite lookup_empty in H.
Qed.

(** ** The sweep *)

Lemma delete_all_lookup ids (s : gmap Z nat) i :
  delete_all ids s !! i = if decide (i ∈ ids) then None else s !! i.
Proof.
  unfold delete_all. revert s.
  induction ids as [|j ids IH]; intros s; cbn [foldl].
  - rewrite decide_False; [done | apply not_elem_of_nil].
  - rewrite IH. destruct (decide (i = j)) as [->|Hne].
    + rewrite lookup_delete_eq.
      rewrite (decide_True (P := j ∈ j :: ids)) by apply list_elem_of_here.
      by destruct (decide (j ∈ ids)).
    + rewrite lookup_delete_ne by done.
      destruct (decide (i ∈ ids)) as [H1|H1].
      * rewrite decide_True; [done | by apply list_elem_of_further].
      * rewrite decide_False; [done |]. rewrite not_elem_of_cons. done.
Qed.

Lemma delete_all_app ids1 ids2 (s : gmap Z nat) :
  delete_all (ids1 ++ ids2) s = delete_all ids2 (delete_all ids1 s).
Proof. unfold delete_all. by rewrite foldl_app. Qed.

Lemma remove_all_elem pre t n : n ∈ remove_all pre t ↔ n ∈ t ∧ n ∉ pre.
Proof.
  unfold remove_all. revert t. induction pre as [|m pre IH]; intros t; simpl.
  - split; [intros H; split; [done | apply not_elem_of_nil] | by intros [? _]].
  - rewrite IH. rewrite list_elem_of_filter. rewrite not_elem_of_cons. tauto.
Qed.

Lemma filter_ne_notin (m : nat) (l : list nat) :
  m ∉ l → filter (fun x => x ≠ m) l = l.
Proof.
  induction l as [|x l IH]; [done|].
  rewrite not_elem_of_cons. intros [Hne Hl].
  rewrite filter_cons_True by done. by rewrite IH.
Qed.

Lemma remove_all_prefix pre suf :
  NoDup (pre ++ suf) → remove_all pre (pre ++ suf) = suf.
Proof.
  unfold remove_all. induction pre as [|m pre IH]; simpl; [done|].
  intros Hnd. apply NoDup_cons in Hnd as [Hm Hnd].
  rewrite filter_cons_False by (intros H; by apply H).
  rewrite filter_ne_notin by done. by apply IH.
Qed.

Lemma group_ids_cons d a g c :
  ctxHeap d !! a = Some c → group_ids d (a :: g) = id c :: group_ids d g.
Proof. intros Hc. unfold group_ids. rewrite bind_cons, Hc. done. Qed.

Lemma set_surbStore_id d : set_surbStore (fun s => s) d = d.
Proof. by destruct d. Qed.

Lemma sweep_group_spec g : ∀ lost d,
  (∀ a, a ∈ g → is_Some (ctxHeap d !! a)) →
  sweep_group g lost d =
    Ok (lost ++ group_ids d g, set_surbStore (delete_all (group_ids d g)) d).
Proof.
  induction g as [|a g IH]; intros lost d Hg.
  - cbn. rewrite app_nil_r. by destruct d.
  - destruct (Hg a) as [c Hc]; [apply list_elem_of_here|].
    cbn [sweep_group]. unfold deref. rewrite Hc. cbn [mbind result_bind].
    rewrite IH by (intros a' Ha'; apply Hg; by apply list_elem_of_further).
    rewrite (group_ids_cons d a g c Hc).
    change (group_ids (set_surbStore (delete (id c)) d) g) with (group_ids d g).
    rewrite <- app_assoc. reflexivity.
Qed.

Lemma sweep_nodes_spec now slack nodes : ∀ lost d,
  (∀ n, n ∈ nodes → good_node d n) →
  ∃ k, let pre := take k nodes in
    sweep_nodes now slack nodes lost d
      = Ok (lost ++ ids_of d pre, swept pre d) ∧
    (∀ n, n ∈ pre → expired now slack d n) ∧
    (∀ n, nodes !! k = Some n → ¬ expired now slack d n).
Proof.
  induction nodes as [|n rest IH]; intros lost d Hgood.
  - exists 0%nat. cbn. rewrite app_nil_r. split; [by destruct d|].
    split; [intros n Hn; by apply elem_of_nil in Hn | done].
  - destruct (Hgood n) as [Hne Hlive]; [apply list_elem_of_here|].
    destruct (group_of d n) as [|a0 g] eqn:Hg; [done|].
    pose proof (group_of_Some d n _ Hg Hne) as Hv.
    destruct (Hlive a0) as [c0 Hc0]; [apply list_elem_of_here|].
    assert (Heta : node_eta d n = eta c0).
    { unfold node_eta. by rewrite Hg, Hc0. }
    cbn [sweep_nodes]. unfold node_Value, deref. rewrite Hv.
    cbn [mbind result_bind as_slice index0]. rewrite Hc0.
    cbn [mbind result_bind].
    destruct (decide (wrap64 (eta c0 + slack) > now)) as [Hgt|Hle].
    + exists 0%nat. cbn. rewrite app_nil_r. split; [by destruct d|].
      split; [intros m Hm; by apply elem_of_nil in Hm|].
      intros m [= <-]. unfold expired. rewrite Heta. lia.
    + rewrite sweep_group_spec by done. cbn [mbind result_bind].
      set (d1 := avl_Remove n _).
      destruct (IH (lost ++ group_ids d (a0 :: g)) d1)
        as (k & Hrun & Hpre & Hk).
      { intros m Hm. apply (Hgood m). by apply list_elem_of_further. }
      exists (S k). cbn [take]. split; [|split].
      * cbv zeta in Hrun. rewrite Hrun. f_equal. f_equal.
        -- change (ids_of d1 (take k rest)) with (ids_of d (take k rest)).
           unfold ids_of at 2. rewrite bind_cons, Hg, <- app_assoc. done.
        -- unfold swept, d1.
           change (ids_of (avl_Remove n _) (take k rest))
             with (ids_of d (take k rest)).
           replace (ids_of d (n :: take k rest))
             with (group_ids d (a0 :: g) ++ ids_of d (take k rest))
             by (unfold ids_of at 2; by rewrite bind_cons, Hg).
           unfold set_surbETAs, set_surbStore, avl_Remove.
           cbn [recipient surbETAs surbStore surbIDBase ctxHeap nodeHeap].
           f_equal. symmetry. apply delete_all_app.
      * intros m Hm. apply elem_of_cons in Hm as [->|Hm].
        -- unfold expired. rewrite Heta. lia.
        -- apply (Hpre m Hm).
      * intros m Hm. apply (Hk m Hm).
Qed.

Lemma Inv_good d n : Inv d → n ∈ surbETAs d → good_node d n.
Proof.
  intros HI Hn. destruct (inv_nodes d HI n Hn) as (Hne & _ & Hm).
  split; [done|]. intros a Ha. destruct (Hm a Ha) as (c & Hc & _). by exists c.
Qed.

Lemma sorted_NoDup (f : nat → Z) (l : list nat) :
  StronglySorted (fun n m => f n < f m) l → NoDup l.
Proof.
  induction 1 as [|x l Hs IH Hall]; constructor; [|done].
  intros Hx. rewrite Forall_forall in Hall. specialize (Hall x Hx). lia.
Qed.

Lemma Inv_NoDup d : Inv d → NoDup (surbETAs d).
Proof. intros HI. eapply sorted_NoDup, (inv_sorted d HI). Qed.

(** Two members with the same id are the same context. *)
Lemma Inv_member_unique d n n' a a' c c' :
  Inv d → n ∈ surbETAs d → n' ∈ surbETAs d →
  a ∈ group_of d n → a' ∈ group_of d n' →
  ctxHeap d !! a = Some c → ctxHeap d !! a' = Some c' → id c = id c' →
  a = a' ∧ n = n'.
Proof.
  intros HI Hn Hn' Ha Ha' Hc Hc' Hid.
  destruct (inv_nodes d HI n Hn) as (_ & _ & Hm).
  destruct (inv_nodes d HI n' Hn') as (_ & _ & Hm').
  destruct (Hm a Ha) as (c1 & Hc1 & _ & Hnode & Hst).
  destruct (Hm' a' Ha') as (c2 & Hc2 & _ & Hnode' & Hst').
  assert (c1 = c) by congruence. assert (c2 = c') by congruence. subst c1 c2.
  rewrite Hid in Hst. assert (a = a') by congruence. subst a'.
  split; [done|]. congruence.
Qed.

Lemma swept_tree d k :
  Inv d → surbETAs (swept (take k (surbETAs d)) d) = drop k (surbETAs d).
Proof.
  intros HI. unfold swept, set_surbETAs, set_surbStore.
  cbn [surbETAs]. rewrite <- (take_drop k (surbETAs d)) at 2.
  apply remove_all_prefix. rewrite take_drop. by apply Inv_NoDup.
Qed.

Lemma swept_store d pre i :
  surbStore (swept pre d) !! i =
    if decide (i ∈ ids_of d pre) then None else surbStore d !! i.
Proof. unfold swept. cbn. apply delete_all_lookup. Qed.

Lemma take_drop_disjoint (l : list nat) k n :
  NoDup l → n ∈ take k l → n ∈ drop k l → False.
Proof.
  intros Hnd H1 H2. rewrite <- (take_drop k l) in Hnd.
  apply NoDup_app in Hnd as (_ & Hdis & _). by apply (Hdis n).
Qed.

Lemma Inv_swept d k : Inv d → Inv (swept (take k (surbETAs d)) d).
Proof.
  intros HI. pose proof (Inv_NoDup d HI) as Hnd.
  assert (Hsub : ∀ n, n ∈ drop k (surbETAs d) → n ∈ surbETAs d).
  { intros n Hn. rewrite <- (take_drop k (surbETAs d)).
    apply elem_of_app. by right. }
  split.
  - rewrite swept_tree by done.
    change (node_eta (swept (take k (surbETAs d)) d)) with (node_eta d).
    pose proof (inv_sorted d HI) as Hs.
    rewrite <- (take_drop k (surbETAs d)) in Hs.
    by apply StronglySorted_app_1_r in Hs.
  - intros n. rewrite swept_tree by done. intros Hn.
    change (group_of (swept (take k (surbETAs d)) d) n) with (group_of d n).
    destruct (inv_nodes d HI n (Hsub n Hn)) as (Hne & Hnd' & Hm).
    split; [done|]. split; [done|].
    intros a Ha. destruct (Hm a Ha) as (c & Hc & Heta & Hnode & Hst).
    exists c. split; [done|]. split; [done|]. split; [done|].
    rewrite swept_store. rewrite decide_False; [done|].
    intros Hin. apply ids_of_elem in Hin.
    destruct Hin as (n' & a' & c' & Hn' & Ha' & Hc' & Hid).
    assert (Hn't : n' ∈ surbETAs d).
    { rewrite <- (take_drop k (surbETAs d)). apply elem_of_app. by left. }
    destruct (Inv_member_unique d n n' a a' c c' HI (Hsub n Hn) Hn't
                Ha Ha' Hc Hc') as [_ ->]; [done|].
    by apply (take_drop_disjoint (surbETAs d) k n').
  - intros i a. rewrite swept_store.
    destruct (decide (i ∈ ids_of d (take k (surbETAs d)))) as [|Hnot]; [done|].
    intros Hst.
    destruct (inv_store d HI i a Hst) as (c & n & Hc & Hid & Hnode & Hn & Ha).
    exists c, n. split; [done|]. split; [done|]. split; [done|].
    split; [|done]. rewrite swept_tree by done.
    rewrite <- (take_drop k (surbETAs d)) in Hn.
    apply elem_of_app in Hn as [Hn|Hn]; [|done].
    exfalso. apply Hnot. apply ids_of_elem. by exists n, a, c.
Qed.

Lemma swept_nil d : swept [] d = d.
Proof. by destruct d. Qed.

Lemma sweepSURBCtxs_spec now DecoySlack d :
  Inv d →
  ∃ k, let pre := take k (surbETAs d) in
       let slack := msec_to_duration DecoySlack in
    sweepSURBCtxs now DecoySlack d = Ok (ids_of d pre, swept pre d) ∧
    (∀ n, n ∈ pre → expired now slack d n) ∧
    (∀ n, surbETAs d !! k = Some n → ¬ expired now slack d n).
Proof.
  intros HI. unfold sweepSURBCtxs, avl_Len.
  destruct (decide (length (surbETAs d) = 0%nat)) as [Hlen|Hlen].
  - exists 0%nat. apply length_zero_iff_nil in Hlen.
    cbn. rewrite swept_nil. split; [done|]. rewrite Hlen.
    split; [intros n Hn; by apply elem_of_nil in Hn | done].
  - destruct (sweep_nodes_spec now (msec_to_duration DecoySlack)
                (surbETAs d) [] d) as (k & Hrun & Hpre & Hk).
    { intros n Hn. by apply Inv_good. }
    exists k. cbv zeta in *. by rewrite Hrun.
Qed.

Lemma sorted_drop_head (R : relation nat) (l : list nat) k n :
  StronglySorted R l → n ∈ drop k l →
  ∃ m, l !! k = Some m ∧ (m = n ∨ R m n).
Proof.
  intros Hs Hn. rewrite <- (take_drop k l) in Hs.
  apply StronglySorted_app_1_r in Hs.
  destruct (drop k l) as [|m rest] eqn:Hd; [by apply elem_of_nil in Hn|].
  exists m. split.
  - replace k with (k + 0)%nat by lia. rewrite <- lookup_drop, Hd. done.
  - apply elem_of_cons in Hn as [->|Hn]; [by left|right].
    apply StronglySorted_cons in Hs as [Hall _].
    rewrite Forall_forall in Hall. by apply Hall.
Qed.

(** Under the invariants and within the range of a duration, the nodes a
    sweep removes are exactly the nodes that are due. *)
Lemma sweep_prefix_exact now slack d k n :
  Inv d → within slack d →
  (∀ m, m ∈ take k (surbETAs d) → expired now slack d m) →
  (∀ m, surbETAs d !! k = Some m → ¬ expired now slack d m) →
  n ∈ surbETAs d →
  (n ∈ take k (surbETAs d) ↔ node_eta d n + slack <= now).
Proof.
  intros HI Hfit Hpre Hk Hn.
  assert (Hrange : ∀ m, m ∈ surbETAs d →
            wrap64 (node_eta d m + slack) = node_eta d m + slack).
  { intros m Hm. apply wrap64_id.
    destruct (inv_nodes d HI m Hm) as (Hne & _ & Hmem).
    destruct (group_of d m) as [|a0 g] eqn:Hg; [done|].
    destruct (Hmem a0) as (c0 & Hc0 & Heta & _ & Hst);
      [apply list_elem_of_here|].
    rewrite <- Heta. by eapply Hfit. }
  split.
  - intros Hin. specialize (Hpre n Hin). unfold expired in Hpre.
    by rewrite Hrange in Hpre.
  - intros Hle. rewrite <- (take_drop k (surbETAs d)) in Hn.
    apply elem_of_app in Hn as [Hn|Hn]; [done|]. exfalso.
    destruct (sorted_drop_head _ _ k n (inv_sorted d HI) Hn) as (m & Hm & Hmn).
    apply (Hk m Hm). unfold expired.
    rewrite Hrange by (by eapply list_elem_of_lookup_2).
    destruct Hmn as [->|Hlt]; lia.
Qed.

(** ** The store *)

Ltac simpl_state :=
  cbn [recipient surbETAs surbStore surbIDBase ctxHeap nodeHeap
       set_surbETAs set_surbStore set_ctxHeap set_nodeHeap set_etaNode
       avl_Remove mbind result_bind as_slice index0].

Lemma avl_search_spec d a C0 new nodes :
  ctxHeap d !! a = None →
  (∀ m, m ∈ nodes → good_node d m) →
  StronglySorted (fun n m => node_eta d n < node_eta d m) nodes →
  (∃ m, m ∈ nodes ∧ node_eta d m = eta C0 ∧
        avl_search (set_ctxHeap <[a := C0]> d) (VSlice [a]) new nodes
          = Ok (Existing m)) ∨
  (∃ l1 l2, nodes = l1 ++ l2 ∧
        avl_search (set_ctxHeap <[a := C0]> d) (VSlice [a]) new nodes
          = Ok (Created (l1 ++ new :: l2)) ∧
        (∀ m, m ∈ l1 → node_eta d m < eta C0) ∧
        (∀ m, m ∈ l2 → eta C0 < node_eta d m)).
Proof.
  intros Ha. induction nodes as [|cur rest IH]; intros Hgood Hs.
  - right. exists [], []. cbn. split; [done|]. split; [done|].
    split; intros m Hm; by apply elem_of_nil in Hm.
  - destruct (Hgood cur) as [Hne Hlive]; [apply list_elem_of_here|].
    destruct (group_of d cur) as [|b0 g] eqn:Hg; [done|].
    pose proof (group_of_Some d cur _ Hg Hne) as Hv.
    destruct (Hlive b0) as [cb Hcb]; [apply list_elem_of_here|].
    assert (Hb0 : b0 ≠ a) by congruence.
    assert (Heta : node_eta d cur = eta cb).
    { unfold node_eta. by rewrite Hg, Hcb. }
    apply StronglySorted_cons in Hs as [Hall Hs].
    rewrite Forall_forall in Hall.
    cbn [avl_search]. unfold node_Value, cmpFn, deref.
    cbn [nodeHeap ctxHeap set_ctxHeap]. rewrite Hv.
    cbn [mbind result_bind as_slice index0].
    rewrite lookup_insert_eq. cbn [mbind result_bind].
    rewrite lookup_insert_ne by done. rewrite Hcb. cbn [mbind result_bind].
    destruct (Z.compare_spec (eta C0) (eta cb)) as [Heq|Hlt|Hgt].
    + left. exists cur. split; [apply list_elem_of_here|]. split; [lia|done].
    + right. exists [], (cur :: rest). split; [done|]. split; [done|].
      split; [intros m Hm; by apply elem_of_nil in Hm|].
      intros m Hm. apply elem_of_cons in Hm as [->|Hm]; [lia|].
      specialize (Hall m Hm). lia.
    + destruct IH as [(m & Hm & Hme & Hrun)|(l1 & l2 & Hl & Hrun & H1 & H2)].
      * intros m Hm. apply Hgood. by apply list_elem_of_further.
      * done.
      * left. exists m. split; [by apply list_elem_of_further|].
        split; [done|]. unfold node_Value, cmpFn, deref in Hrun.
        cbn [nodeHeap ctxHeap set_ctxHeap] in Hrun. by rewrite Hrun.
      * right. exists (cur :: l1), l2. split; [by rewrite Hl|].
        unfold node_Value, cmpFn, deref in Hrun.
        cbn [nodeHeap ctxHeap set_ctxHeap] in Hrun. rewrite Hrun.
        split; [done|]. split; [|done].
        intros m Hm. apply elem_of_cons in Hm as [->|Hm]; [lia|by apply H1].
Qed.

Lemma fresh_ctx_None d : ctxHeap d !! fresh (dom (ctxHeap d)) = None.
Proof. apply not_elem_of_dom, is_fresh. Qed.

Lemma fresh_node_None d : nodeHeap d !! fresh (dom (nodeHeap d)) = None.
Proof. apply not_elem_of_dom, is_fresh. Qed.

Lemma storeSURBCtx_spec d i e key :
  Inv d →
  let a := fresh (dom (ctxHeap d)) in
  ∃ n tree1,
    storeSURBCtx a (set_ctxHeap <[a := SurbCtx i e key None]> d)
      = Ok (stored d i e key a n tree1) ∧
    placed d e n tree1.
Proof.
  intros HI a. pose proof (fresh_ctx_None d) as Ha. fold a in Ha.
  set (C0 := SurbCtx i e key None).
  unfold storeSURBCtx, avl_Insert.
  destruct (avl_search_spec d a C0 (fresh (dom (nodeHeap d))) (surbETAs d) Ha)
    as [(m & Hm & Hme & Hrun)|(l1 & l2 & Hl & Hrun & H1 & H2)].
  { intros m Hm. by apply Inv_good. }
  { apply (inv_sorted d HI). }
  - exists m, (surbETAs d).
    simpl_state. rewrite Hrun.
    destruct (inv_nodes d HI m Hm) as (Hne & _ & Hmem).
    destruct (group_of d m) as [|b0 g] eqn:Hg; [done|].
    pose proof (group_of_Some d m _ Hg Hne) as Hv.
    destruct (Hmem b0) as (cb & Hcb & _); [apply list_elem_of_here|].
    assert (Hb0 : b0 ≠ a) by congruence.
    unfold deref, node_Value. simpl_state.
    rewrite lookup_insert_eq, Hv. simpl_state.
    rewrite decide_True by done. simpl_state.
    rewrite !alter_insert_eq, lookup_insert_eq. simpl_state.
    split; [|left; done].
    unfold stored, set_surbStore, set_nodeHeap, set_etaNode, set_ctxHeap.
    simpl_state. rewrite ?alter_insert_eq, Hg. reflexivity.
  - exists (fresh (dom (nodeHeap d))), (l1 ++ fresh (dom (nodeHeap d)) :: l2).
    pose proof (fresh_node_None d) as Hnew.
    simpl_state. rewrite Hrun.
    unfold deref, node_Value. simpl_state.
    rewrite !lookup_insert_eq. simpl_state.
    rewrite decide_False by (intros H; by apply H). simpl_state.
    rewrite !alter_insert_eq, lookup_insert_eq. simpl_state.
    split.
    + unfold stored, group_of, set_surbStore, set_nodeHeap, set_etaNode,
        set_ctxHeap, set_surbETAs.
      simpl_state. rewrite ?alter_insert_eq, Hnew. reflexivity.
    + right. split; [done|]. by exists l1, l2.
Qed.

Lemma stored_group d i e key a n tree1 x :
  group_of (stored d i e key a n tree1) x =
    if decide (x = n) then group_of d n ++ [a] else group_of d x.
Proof.
  unfold group_of at 1, stored. cbn [nodeHeap].
  destruct (decide (x = n)) as [->|Hne].
  - by rewrite lookup_insert_eq.
  - rewrite lookup_insert_ne by done. done.
Qed.

Lemma stored_ctx_other d i e key a n tree1 b :
  b ≠ a → ctxHeap (stored d i e key a n tree1) !! b = ctxHeap d !! b.
Proof.
  intros Hne. unfold stored. cbn [ctxHeap]. by rewrite lookup_insert_ne.
Qed.

Lemma stored_ctx_new d i e key a n tree1 :
  ctxHeap (stored d i e key a n tree1) !! a = Some (SurbCtx i e key (Some n)).
Proof. unfold stored. cbn [ctxHeap]. by rewrite lookup_insert_eq. Qed.

Lemma placed_tree d e n tree1 x :
  placed d e n tree1 → (x ∈ tree1 ↔ x = n ∨ x ∈ surbETAs d).
Proof.
  intros [(Hn & -> & _)|(_ & l1 & l2 & Hl & -> & _)].
  - split; [by right | intros [->|H]; done].
  - rewrite Hl, !elem_of_app, elem_of_cons. tauto.
Qed.

Lemma StronglySorted_ext_in (R R' : relation nat) (l : list nat) :
  StronglySorted R l →
  (∀ x y, x ∈ l → y ∈ l → R x y → R' x y) →
  StronglySorted R' l.
Proof.
  induction 1 as [|x l Hs IH Hall]; intros Himp; constructor.
  - apply IH. intros y z Hy Hz. apply Himp; by apply list_elem_of_further.
  - rewrite Forall_forall in *. intros y Hy. apply Himp.
    + apply list_elem_of_here.
    + by apply list_elem_of_further.
    + by apply Hall.
Qed.

Lemma Inv_stored d i e key a n tree1 :
  Inv d → surbStore d !! i = None → ctxHeap d !! a = None →
  placed d e n tree1 → Inv (stored d i e key a n tree1).
Proof.
  intros HI Hi Ha Hpl. set (d1 := stored d i e key a n tree1).
  assert (Hlive : ∀ x b, x ∈ surbETAs d → b ∈ group_of d x → b ≠ a).
  { intros x b Hx Hb ->. destruct (inv_nodes d HI x Hx) as (_ & _ & Hm).
    destruct (Hm a Hb) as (c & Hc & _). congruence. }
  assert (Hhead : ∀ x, x ∈ surbETAs d → node_eta d1 x = node_eta d x).
  { intros x Hx. destruct (inv_nodes d HI x Hx) as (Hne & _ & _).
    unfold node_eta. unfold d1. rewrite stored_group.
    destruct (group_of d x) as [|b0 g] eqn:Hg; [done|].
    assert (b0 ≠ a)
      by (apply (Hlive x); [done | rewrite Hg; apply list_elem_of_here]).
    destruct (decide (x = n)) as [->|Hxn].
    - rewrite Hg. cbn [app]. by rewrite stored_ctx_other.
    - by rewrite stored_ctx_other. }
  assert (Hnew : node_eta d1 n = e).
  { destruct Hpl as [(Hn & _ & He)|(Hnone & _)].
    - by rewrite Hhead.
    - unfold node_eta, d1. rewrite stored_group, decide_True by done.
      unfold group_of. rewrite Hnone. cbn [app].
      by rewrite stored_ctx_new. }
  assert (Hold : ∀ x b, x ∈ surbETAs d → b ∈ group_of d x → member_ok d1 x b).
  { intros x b Hx Hb. destruct (inv_nodes d HI x Hx) as (_ & _ & Hm).
    destruct (Hm b Hb) as (c & Hc & Heta & Hnode & Hst).
    exists c. unfold d1. rewrite stored_ctx_other by (by eapply Hlive).
    fold d1. rewrite Hhead by done. split; [done|]. split; [done|].
    split; [done|]. unfold d1, stored. cbn [surbStore].
    rewrite lookup_insert_ne; [done|]. congruence. }
  assert (Hself : member_ok d1 n a).
  { exists (SurbCtx i e key (Some n)). unfold d1 at 1. rewrite stored_ctx_new.
    cbn [eta etaNode id]. split; [done|]. split; [by rewrite Hnew|].
    split; [done|]. unfold d1, stored. cbn [surbStore].
    by rewrite lookup_insert_eq. }
  split.
  - (* ordered *)
    change (surbETAs d1) with tree1.
    destruct Hpl as [(Hn & -> & He)|(Hnone & l1 & l2 & Hl & -> & H1 & H2)].
    + eapply StronglySorted_ext_in; [apply (inv_sorted d HI)|].
      intros x y Hx Hy. by rewrite !Hhead.
    + pose proof (inv_sorted d HI) as Hs. rewrite Hl in Hs.
      apply StronglySorted_app in Hs as (Hcross & Hs1 & Hs2).
      assert (Hin1 : ∀ x, x ∈ l1 → x ∈ surbETAs d).
      { intros x Hx. rewrite Hl. apply elem_of_app. by left. }
      assert (Hin2 : ∀ x, x ∈ l2 → x ∈ surbETAs d).
      { intros x Hx. rewrite Hl. apply elem_of_app. by right. }
      apply StronglySorted_app. split; [|split].
      * intros x y Hx Hy. rewrite (Hhead x) by auto.
        apply elem_of_cons in Hy as [->|Hy].
        -- rewrite Hnew. by apply H1.
        -- rewrite (Hhead y) by auto. by apply Hcross.
      * eapply StronglySorted_ext_in; [apply Hs1|].
        intros x y Hx Hy. rewrite !Hhead by auto. done.
      * constructor.
        -- eapply StronglySorted_ext_in; [apply Hs2|].
           intros x y Hx Hy. rewrite !Hhead by auto. done.
        -- rewrite Forall_forall. intros y Hy.
           rewrite Hnew, (Hhead y) by auto. by apply H2.
  - (* groups *)
    intros x Hx. change (surbETAs d1) with tree1 in Hx.
    apply (placed_tree d e n tree1 x Hpl) in Hx.
    unfold d1 at 1 2 3. rewrite stored_group.
    destruct (decide (x = n)) as [->|Hxn].
    + split; [by destruct (group_of d n)|]. split.
      * apply NoDup_app. split; [|split].
        -- destruct Hpl as [(Hn & _)|(Hnone & _)].
           ++ by destruct (inv_nodes d HI n Hn) as (_ & Hnd & _).
           ++ unfold group_of. rewrite Hnone. constructor.
        -- intros b Hb Hb'. apply list_elem_of_singleton in Hb'. subst b.
           destruct Hpl as [(Hn & _)|(Hnone & _)].
           ++ by apply (Hlive n a Hn Hb).
           ++ unfold group_of in Hb. rewrite Hnone in Hb.
              by apply elem_of_nil in Hb.
        -- apply NoDup_singleton.
      * intros b Hb. apply elem_of_app in Hb as [Hb|Hb].
        -- destruct Hpl as [(Hn & _)|(Hnone & _)].
           ++ by apply Hold.
           ++ unfold group_of in Hb. rewrite Hnone in Hb.
              by apply elem_of_nil in Hb.
        -- apply list_elem_of_singleton in Hb. by subst b.
    + destruct Hx as [->|Hx]; [done|].
      destruct (inv_nodes d HI x Hx) as (Hne & Hnd & _).
      split; [done|]. split; [done|]. intros b Hb. by apply Hold.
  - (* store *)
    intros j b. unfold d1 at 1, stored. cbn [surbStore].
    destruct (decide (i = j)) as [<-|Hji].
    + rewrite lookup_insert_eq. intros [= <-].
      exists (SurbCtx i e key (Some n)), n. unfold d1 at 1.
      rewrite stored_ctx_new. split; [done|]. split; [done|].
      split; [done|]. split.
      * change (surbETAs d1) with tree1.
        apply (placed_tree d e n tree1 n Hpl). by left.
      * unfold d1. rewrite stored_group, decide_True by done.
        apply elem_of_app. right. apply list_elem_of_here.
    + rewrite lookup_insert_ne by done. intros Hst.
      destruct (inv_store d HI j b Hst) as (c & x & Hc & Hid & Hnode & Hx & Hb).
      exists c, x. unfold d1 at 1.
      rewrite stored_ctx_other by (by eapply Hlive).
      split; [done|]. split; [done|]. split; [done|]. split.
      * change (surbETAs d1) with tree1.
        apply (placed_tree d e n tree1 x Hpl). by right.
      * unfold d1. rewrite stored_group.
        destruct (decide (x = n)) as [->|_]; [|done].
        apply elem_of_app. by left.
Qed.

(** ** Retiring a token *)

Lemma loadAndDelete_absent d i :
  surbStore d !! i = None → loadAndDeleteSURBCtx i d = Ok (None, d).
Proof. intros H. unfold loadAndDeleteSURBCtx. by rewrite H. Qed.


(** ** The horizon of a sweep *)

Lemma Inv_ids_NoDup d nodes :
  Inv d → NoDup nodes → (∀ n, n ∈ nodes → n ∈ surbETAs d) →
  NoDup (ids_of d nodes).
Proof.
  intros HI Hnd Hsub. unfold ids_of. apply NoDup_bind; [| |done].
  - intros n n' i Hn Hn' Hi Hi'.
    apply group_ids_elem in Hi as (a & c & Ha & Hc & Hid).
    apply group_ids_elem in Hi' as (a' & c' & Ha' & Hc' & Hid').
    by destruct (Inv_member_unique d n n' a a' c c' HI (Hsub n Hn)
                   (Hsub n' Hn') Ha Ha' Hc Hc') as [_ ->]; [congruence|].
  - intros n Hn. destruct (inv_nodes d HI n (Hsub n Hn)) as (_ & Hg & _).
    unfold group_ids. apply NoDup_bind; [| |done].
    + intros a a' i Ha Ha' Hi Hi'.
      destruct (ctxHeap d !! a) as [c|] eqn:Hc; [|by apply elem_of_nil in Hi].
      destruct (ctxHeap d !! a') as [c'|] eqn:Hc';
        [|by apply elem_of_nil in Hi'].
      apply list_elem_of_singleton in Hi, Hi'.
      by destruct (Inv_member_unique d n n a a' c c' HI (Hsub n Hn)
                     (Hsub n Hn) Ha Ha' Hc Hc') as [-> _]; [congruence|].
    + intros a Ha.
      destruct (ctxHeap d !! a); [apply NoDup_singleton|constructor].
Qed.

Lemma sweep_exact now DecoySlack d :
  Inv d → within (msec_to_duration DecoySlack) d →
  ∃ lost d',
    sweepSURBCtxs now DecoySlack d = Ok (lost, d') ∧
    Inv d' ∧ NoDup lost ∧
    (∀ i a c, surbStore d !! i = Some a → ctxHeap d !! a = Some c →
       (eta c + msec_to_duration DecoySlack > now →
          surbStore d' !! i = Some a ∧ i ∉ lost) ∧
       (eta c + msec_to_duration DecoySlack <= now →
          surbStore d' !! i = None ∧ i ∈ lost)) ∧
    (∀ i, i ∈ lost → is_Some (surbStore d !! i)) ∧
    (∀ i, i ∈ lost → i ∉ index_ids d') ∧
    ctxHeap d' = ctxHeap d.
Proof.
  intros HI Hfit. set (slack := msec_to_duration DecoySlack) in *.
  destruct (sweepSURBCtxs_spec now DecoySlack d HI) as (k & Hrun & Hpre & Hk).
  cbv zeta in *. fold slack in Hpre, Hk.
  set (pre := take k (surbETAs d)) in *.
  assert (Hsub : ∀ n, n ∈ pre → n ∈ surbETAs d).
  { intros n Hn. rewrite <- (take_drop k (surbETAs d)).
    apply elem_of_app. by left. }
  exists (ids_of d pre), (swept pre d). split; [done|].
  split; [by apply Inv_swept|]. split.
  { apply Inv_ids_NoDup; [done| |done].
    pose proof (Inv_NoDup d HI) as Hnd.
    rewrite <- (take_drop k (surbETAs d)) in Hnd.
    by apply NoDup_app in Hnd as (? & _). }
  split; [|split; [|split; [|done]]].
  - intros i a c Hst Hc.
    destruct (inv_store d HI i a Hst) as (c' & n & Hc' & Hid & Hnode & Hn & Ha).
    assert (c' = c) by congruence. subst c'.
    destruct (inv_nodes d HI n Hn) as (_ & _ & Hm).
    destruct (Hm a Ha) as (c' & Hc'' & Heta & _).
    assert (c' = c) by congruence. subst c'.
    pose proof (sweep_prefix_exact now slack d k n HI Hfit Hpre Hk Hn) as Hex.
    fold pre in Hex. rewrite <- Heta in Hex. rewrite swept_store.
    split; intros Hcmp.
    + assert (Hnot : i ∉ ids_of d pre).
      { intros Hin. apply ids_of_elem in Hin.
        destruct Hin as (n' & a' & c' & Hn' & Ha' & Hc3 & Hid').
        destruct (Inv_member_unique d n n' a a' c c' HI Hn (Hsub n' Hn')
                    Ha Ha' Hc Hc3) as [_ ->]; [congruence|].
        apply Hex in Hn'. lia. }
      by rewrite decide_False.
    + assert (Hin : i ∈ ids_of d pre).
      { apply ids_of_elem. exists n, a, c. split; [by apply Hex|done]. }
      by rewrite decide_True.
  - intros i Hin. apply ids_of_elem in Hin.
    destruct Hin as (n & a & c & Hn & Ha & Hc & Hid).
    destruct (inv_nodes d HI n (Hsub n Hn)) as (_ & _ & Hm).
    destruct (Hm a Ha) as (c' & Hc' & _ & _ & Hst).
    assert (c' = c) by congruence. subst c'. rewrite Hid in Hst. by exists a.
  - intros i Hin Hin'. unfold index_ids in Hin'. unfold pre in Hin' at 2.
    rewrite swept_tree in Hin' by done.
    change (ids_of (swept pre d)) with (ids_of d) in Hin'.
    apply ids_of_elem in Hin as (n & a & c & Hn & Ha & Hc & Hid).
    apply ids_of_elem in Hin' as (n' & a' & c' & Hn' & Ha' & Hc' & Hid').
    assert (Hn't : n' ∈ surbETAs d).
    { rewrite <- (take_drop k (surbETAs d)). apply elem_of_app. by right. }
    destruct (Inv_member_unique d n n' a a' c c' HI (Hsub n Hn) Hn't
                Ha Ha' Hc Hc') as [_ ->]; [congruence|].
    by apply (take_drop_disjoint (surbETAs d) k n' (Inv_NoDup d HI)).
Qed.

(** In 64-bit arithmetic and without a condition on the range: a sweep
    returns and keeps every context for which the test of the source,
    [eta + slack > now] with the wrapped sum, holds. *)
Lemma sweep_keeps now DecoySlack d :
  Inv d →
  ∃ lost d',
    sweepSURBCtxs now DecoySlack d = Ok (lost, d') ∧ Inv d' ∧
    ∀ i a c, surbStore d !! i = Some a → ctxHeap d !! a = Some c →
      wrap64 (eta c + msec_to_duration DecoySlack) > now →
      surbStore d' !! i = Some a ∧ i ∉ lost.
Proof.
  intros HI.
  destruct (sweepSURBCtxs_spec now DecoySlack d HI) as (k & Hrun & Hpre & _).
  cbv zeta in *. set (pre := take k (surbETAs d)) in *.
  exists (ids_of d pre), (swept pre d). split; [done|].
  split; [by apply Inv_swept|].
  intros i a c Hst Hc Hgt.
  destruct (inv_store d HI i a Hst) as (c' & n & Hc' & Hid & Hnode & Hn & Ha).
  assert (c' = c) by congruence. subst c'.
  destruct (inv_nodes d HI n Hn) as (_ & _ & Hm).
  destruct (Hm a Ha) as (c' & Hc'' & Heta & _).
  assert (c' = c) by congruence. subst c'.
  assert (Hnot : i ∉ ids_of d pre).
  { intros Hin. apply ids_of_elem in Hin.
    destruct Hin as (n' & a' & c' & Hn' & Ha' & Hc3 & Hid').
    assert (Hn't : n' ∈ surbETAs d).
    { rewrite <- (take_drop k (surbETAs d)). apply elem_of_app. by left. }
    destruct (Inv_member_unique d n n' a a' c c' HI Hn Hn't Ha Ha' Hc Hc3)
      as [_ ->]; [congruence|].
    specialize (Hpre n' Hn'). unfold expired in Hpre.
    rewrite <- Heta in Hpre. lia. }
  split; [|done]. rewrite swept_store. by rewrite decide_False.
Qed.

Lemma sweep_lost_indexed now DecoySlack d lost d' :
  Inv d → sweepSURBCtxs now DecoySlack d = Ok (lost, d') →
  ∀ i, i ∈ lost → i ∈ index_ids d.
Proof.
  intros HI Hrun i Hi.
  destruct (sweepSURBCtxs_spec now DecoySlack d HI) as (k & Hrun' & _).
  cbv zeta in Hrun'. rewrite Hrun' in Hrun. injection Hrun as <- <-.
  apply ids_of_elem in Hi as (n & a & c & Hn & Ha & Hc & Hid).
  apply ids_of_elem. exists n, a, c. split; [|done].
  rewrite <- (take_drop k (surbETAs d)). apply elem_of_app. by left.
Qed.

Lemma sweep_total now DecoySlack d :
  Inv d → ∃ lost d', sweepSURBCtxs now DecoySlack d = Ok (lost, d').
Proof.
  intros HI.
  destruct (sweepSURBCtxs_spec now DecoySlack d HI) as (k & Hrun & _).
  eauto.
Qed.

Lemma msec_to_duration_0 : msec_to_duration 0 = 0.
Proof. reflexivity. Qed.

(** A token stored with key [T] in a fresh decoy, swept at [T - 1] and at
    [T] with no slack. *)
Lemma sweep_scenario rcpt base i T key :
  in_int64 T →
  ∃ d1 d2,
    storeSURBCtx (new_surbCtx i T key (New rcpt base)).1
                 (new_surbCtx i T key (New rcpt base)).2 = Ok d1 ∧
    store_ids d1 = {[i]} ∧
    sweepSURBCtxs (T - 1) 0 d1 = Ok ([], d1) ∧
    sweepSURBCtxs T 0 d1 = Ok ([i], d2) ∧
    store_ids d2 = ∅ ∧ index_ids d2 = [].
Proof.
  intros HT. set (d := New rcpt base).
  destruct (storeSURBCtx_spec d i T key (Inv_New rcpt base))
    as (n & tree1 & Hrun & Hpl).
  cbv zeta in Hrun. set (a := fresh (dom (ctxHeap d))) in *.
  assert (tree1 = [n]) as ->.
  { destruct Hpl as [(Hn & _)|(_ & l1 & l2 & Hl & -> & _)].
    - by apply elem_of_nil in Hn.
    - symmetry in Hl. apply app_eq_nil in Hl as [-> ->]. done. }
  set (d1 := stored d i T key a n [n]) in *.
  assert (Hv : nodeHeap d1 !! n = Some (VSlice [a])).
  { unfold d1, stored. cbn [nodeHeap]. rewrite lookup_insert_eq.
    unfold group_of, d. cbn [nodeHeap New]. by rewrite lookup_empty. }
  assert (Hc : ctxHeap d1 !! a = Some (SurbCtx i T key (Some n))).
  { apply stored_ctx_new. }
  assert (Hw : wrap64 (T + msec_to_duration 0) = T).
  { rewrite msec_to_duration_0, Z.add_0_r. by apply wrap64_id. }
  exists d1, (avl_Remove n (set_surbStore (delete i) d1)).
  split; [exact Hrun|]. split.
  { unfold store_ids, d1, stored. cbn [surbStore New d].
    rewrite dom_insert_L, dom_empty_L. apply (right_id_L ∅ (∪)). }
  split; [|split; [|split]].
  - unfold sweepSURBCtxs, avl_Len. cbn [surbETAs d1 stored length].
    rewrite decide_False by done.
    cbn [sweep_nodes]. unfold node_Value, deref. rewrite Hv. simpl_state.
    rewrite Hc. simpl_state. cbn [eta]. rewrite Hw.
    rewrite decide_True by lia. done.
  - unfold sweepSURBCtxs, avl_Len. cbn [surbETAs d1 stored length].
    rewrite decide_False by done.
    cbn [sweep_nodes]. unfold node_Value, deref. rewrite Hv. simpl_state.
    rewrite Hc. simpl_state. cbn [eta]. rewrite Hw.
    rewrite decide_False by lia.
    cbn [sweep_group]. unfold deref. rewrite Hc. simpl_state. done.
  - unfold store_ids, d1, stored. simpl_state. cbn [New d surbStore].
    rewrite delete_insert_eq, delete_empty. apply dom_empty_L.
  - unfold index_ids, ids_of. simpl_state. unfold d1, stored. cbn [surbETAs].
    rewrite filter_cons_False by (intros H; by apply H). done.
Qed.

(** C4, amended. On a state that satisfies the invariants of the data
    model, and as long as [eta + slack] stays in the range of a 64-bit
    duration for the stored contexts, a sweep returns, keeps every context
    with [eta + slack > now], removes and reports every context with
    [eta + slack <= now], leaves store and index in bijection, and a later
    sweep with [now2 >= now] reports none of the ids the first one
    reported. Without the condition on the range the sweep still returns
    and keeps every context that passes the 64-bit test of the source. A
    token stored with key [T] in a fresh decoy survives the sweep at
    [T - 1] without slack, and the sweep at [T] removes it and reports
    exactly this one id. *)
Theorem sweep_horizon :
  (∀ now DecoySlack d,
     wf d = true → fits (msec_to_duration DecoySlack) d = true →
     ∃ lost d',
       sweepSURBCtxs now DecoySlack d = Ok (lost, d') ∧
       (∀ i a c, surbStore d !! i = Some a → ctxHeap d !! a = Some c →
          (eta c + msec_to_duration DecoySlack > now →
             surbStore d' !! i = Some a ∧ i ∉ lost) ∧
          (eta c + msec_to_duration DecoySlack <= now →
             surbStore d' !! i = None ∧ i ∈ lost)) ∧
       bijection d' ∧
       (∀ now2 DecoySlack2, now <= now2 →
          ∃ lost2 d2,
            sweepSURBCtxs now2 DecoySlack2 d' = Ok (lost2, d2) ∧
            ∀ i, i ∈ lost → i ∉ lost2)) ∧
  (∀ now DecoySlack d,
     wf d = true →
     ∃ lost d',
       sweepSURBCtxs now DecoySlack d = Ok (lost, d') ∧ bijection d' ∧
       ∀ i a c, surbStore d !! i = Some a → ctxHeap d !! a = Some c →
         wrap64 (eta c + msec_to_duration DecoySlack) > now →
         surbStore d' !! i = Some a ∧ i ∉ lost) ∧
  (∀ rcpt base i T key, in_int64 T →
     ∃ d1 d2,
       storeSURBCtx (new_surbCtx i T key (New rcpt base)).1
                    (new_surbCtx i T key (New rcpt base)).2 = Ok d1 ∧
       store_ids d1 = {[i]} ∧
       sweepSURBCtxs (T - 1) 0 d1 = Ok ([], d1) ∧
       sweepSURBCtxs T 0 d1 = Ok ([i], d2) ∧
       store_ids d2 = ∅ ∧ index_ids d2 = []).
Proof.
  split; [|split].
  - intros now DecoySlack d Hwf Hfit.
    apply wf_Inv in Hwf. apply fits_within in Hfit.
    destruct (sweep_exact now DecoySlack d Hwf Hfit)
      as (lost & d' & Hrun & HI' & _ & Hentries & _ & Hgone & _).
    exists lost, d'. split; [done|]. split; [done|].
    split; [by apply Inv_bijection|].
    intros now2 DecoySlack2 _.
    destruct (sweep_total now2 DecoySlack2 d' HI') as (lost2 & d2 & Hrun2).
    exists lost2, d2. split; [done|]. intros i Hi Hi2.
    apply (Hgone i Hi). by eapply sweep_lost_indexed.
  - intros now DecoySlack d Hwf. apply wf_Inv in Hwf.
    destruct (sweep_keeps now DecoySlack d Hwf)
      as (lost & d' & Hrun & HI' & Hkeep).
    exists lost, d'. split; [done|]. split; [by apply Inv_bijection|done].
  - intros rcpt base i T key HT. by apply sweep_scenario.
Qed.

(** C4, as stated, fails where [eta + slack] leaves the range of a 64-bit
    duration, here with [DecoySlack = 9223372036854] milliseconds. Read
    over the integers: the context with [eta] one millisecond has
    [eta + slack > now] at [now] two milliseconds, and the sweep removes
    it. Read in 64-bit arithmetic: of two contexts with [eta] zero and one
    millisecond the second has [eta + slack <= now] in the wrapped sum,
    and the sweep, which stops at the first, leaves it. *)
Lemma sweep_horizon_overflow :
  (run_ops [OpStore 1 1000000 []] (New [] 0) = Ok overflow_state ∧
   wf overflow_state = true ∧
   surbStore overflow_state !! 1 = Some 0%nat ∧
   eta <$> ctxHeap overflow_state !! 0%nat = Some 1000000 ∧
   1000000 + msec_to_duration 9223372036854 > 2000000 ∧
   ∃ d', sweepSURBCtxs 2000000 9223372036854 overflow_state = Ok ([1], d') ∧
         surbStore d' !! 1 = None) ∧
  (run_ops [OpStore 1 0 []; OpStore 2 1000000 []] (New [] 0)
     = Ok overflow_state2 ∧
   wf overflow_state2 = true ∧
   surbStore overflow_state2 !! 2 = Some 1%nat ∧
   eta <$> ctxHeap overflow_state2 !! 1%nat = Some 1000000 ∧
   wrap64 (1000000 + msec_to_duration 9223372036854) <= 9223372036853999999 ∧
   sweepSURBCtxs 9223372036853999999 9223372036854 overflow_state2
     = Ok ([], overflow_state2)).
Proof.
  split.
  - split; [by vm_compute|].
    split; [by vm_compute|]. split; [by vm_compute|].
    split; [by vm_compute|]. split; [by vm_compute|].
    eexists. split; by vm_compute.
  - split; [by vm_compute|].
    split; [by vm_compute|]. split; [by vm_compute|].
    split; [by vm_compute|]. split; by vm_compute.
Qed.

Lemma sweep_horizon_witness :
  run_ops [OpStore 1 5 []; OpStore 2 7 []] (New [] 0) = Ok two_tokens ∧
  wf two_tokens = true ∧ fits (msec_to_duration 0) two_tokens = true ∧
  ∃ lost d',
    sweepSURBCtxs 6 0 two_tokens = Ok (lost, d') ∧
    (∀ i a c, surbStore two_tokens !! i = Some a →
       ctxHeap two_tokens !! a = Some c →
       (eta c + msec_to_duration 0 > 6 →
          surbStore d' !! i = Some a ∧ i ∉ lost) ∧
       (eta c + msec_to_duration 0 <= 6 →
          surbStore d' !! i = None ∧ i ∈ lost)) ∧
    bijection d' ∧
    (∀ now2 DecoySlack2, 6 <= now2 →
       ∃ lost2 d2,
         sweepSURBCtxs now2 DecoySlack2 d' = Ok (lost2, d2) ∧
         ∀ i, i ∈ lost → i ∉ lost2).
Proof.
  split; [by vm_compute|]. split; [by vm_compute|]. split; [by vm_compute|].
  apply (proj1 sweep_horizon 6 0 two_tokens); by vm_compute.
Defined.

(** ** Two tokens with the same key *)

(** C1, at the failing input: two tokens with the same [eta] are stored
    and the first is retired. The store then holds id 2, the node is
    still in the tree but its [Value] is a nil [*surbCtx], no group, so
    iterating the index reaches no id: the bijection is lost. *)
Theorem lifecycle_bijection_broken :
  ∃ d, run_ops [OpStore 1 5 []; OpStore 2 5 []; OpTake 1] (New [] 0) = Ok d ∧
       store_ids d = {[2]} ∧
       surbETAs d = [0%nat] ∧ nodeHeap d !! 0%nat = Some (VCtxPtr None) ∧
       index_ids d = [] ∧
       ¬ bijection d.
Proof.
  eexists. split; [by vm_compute|].
  split; [by vm_compute|]. split; [by vm_compute|]. split; [by vm_compute|].
  split; [by vm_compute|].
  unfold bijection. vm_compute. intros H. discriminate H.
Qed.

(** C2, at the failing input: two tokens with the same [eta] share one
    node, and one sweep at that time removes both; but after the first is
    retired by id, retiring the second panics on the node's [Value]. *)
Theorem eta_collision_second_take_panics :
  ∃ d, run_ops [OpStore 1 5 [10]; OpStore 2 5 [20]] (New [] 0) = Ok d ∧
       surbETAs d = [0%nat] ∧ group_of d 0 = [0%nat; 1%nat] ∧
       store_ids d = {[1; 2]} ∧
       (∃ d', sweepSURBCtxs 5 0 d = Ok ([1; 2], d') ∧
              store_ids d' = ∅ ∧ surbETAs d' = []) ∧
       (∃ d', loadAndDeleteSURBCtx 1 d = Ok (Some 0%nat, d') ∧
              loadAndDeleteSURBCtx 2 d'
                = Panic "interface conversion: not []*decoy.surbCtx") ∧
       (∃ d', loadAndDeleteSURBCtx 2 d = Ok (Some 1%nat, d') ∧
              loadAndDeleteSURBCtx 1 d'
                = Panic "interface conversion: not []*decoy.surbCtx").
Proof.
  eexists. split; [by vm_compute|].
  split; [by vm_compute|]. split; [by vm_compute|]. split; [by vm_compute|].
  split; [eexists; split; [by vm_compute|]; split; by vm_compute|].
  split; eexists; split; by vm_compute.
Qed.

(** ** Retiring a token that shares its node *)

Lemma shrunk_value_nil g k :
  (k < length g)%nat → shrunk_value g k = VCtxPtr None.
Proof.
  intros Hk. unfold shrunk_value.
  rewrite list_lookup_insert_eq; [done|].
  rewrite length_fmap, !length_app, length_take, !length_drop. lia.
Qed.

(** Whenever the retired token shares its node with others, the node
    stays in the tree without a group: the others are still in the store,
    the index no longer reaches them, and retiring any of them panics. *)
Lemma shared_node_retirement d i a n :
  Inv d → surbStore d !! i = Some a →
  etaNode <$> ctxHeap d !! a = Some (Some n) →
  (1 < length (group_of d n))%nat →
  ∃ d', loadAndDeleteSURBCtx i d = Ok (Some a, d') ∧
        n ∈ surbETAs d' ∧ nodeHeap d' !! n = Some (VCtxPtr None) ∧
        ∀ b, b ∈ group_of d n → b ≠ a →
          ∃ j, surbStore d' !! j = Some b ∧
               (j ∉ index_ids d') ∧
               loadAndDeleteSURBCtx j d'
                 = Panic "interface conversion: not []*decoy.surbCtx".
Proof.
  intros HI Hst Hnode Hlen.
  destruct (inv_store d HI i a Hst) as (c & n' & Hc & Hid & Hnode' & Hn & Ha).
  rewrite Hc in Hnode. cbn in Hnode. assert (n' = n) by congruence. subst n'.
  destruct (inv_nodes d HI n Hn) as (Hne & Hnd & Hm).
  pose proof (group_of_Some d n _ eq_refl Hne) as Hv.
  destruct (list_find_elem_of (fun v => v = a) (group_of d n) a Ha eq_refl)
    as [[k x] Hfind].
  pose proof Hfind as Hk. apply list_find_Some in Hk as (Hk & _ & _).
  apply lookup_lt_Some in Hk.
  eexists. split.
  { unfold loadAndDeleteSURBCtx. rewrite Hst.
    unfold deref, node_Value. simpl_state. rewrite Hc. simpl_state.
    rewrite Hnode'. simpl_state. rewrite Hv. simpl_state.
    rewrite decide_True by done. rewrite Hfind.
    rewrite shrunk_value_nil by done. reflexivity. }
  simpl_state. split; [done|]. split; [by rewrite lookup_insert_eq|].
  intros b Hb Hba. destruct (Hm b Hb) as (cb & Hcb & _ & Hnb & Hsb).
  assert (Hji : id cb ≠ i).
  { intros Heq. rewrite Heq in Hsb. congruence. }
  exists (id cb). split; [by rewrite lookup_delete_ne|]. split.
  - unfold index_ids. intros Hin. apply ids_of_elem in Hin.
    destruct Hin as (m & b' & c' & Hm' & Hb' & Hc' & Hid').
    revert Hb' Hc'. unfold group_of. simpl_state.
    destruct (decide (m = n)) as [->|Hmn].
    + rewrite lookup_insert_eq. intros Hb'. by apply elem_of_nil in Hb'.
    + rewrite lookup_insert_ne by done. intros Hb' Hc'.
      assert (Hb'a : b' ≠ a).
      { intros ->. destruct (inv_nodes d HI m Hm') as (_ & _ & Hmm).
        destruct (Hmm a Hb') as (c2 & Hc2 & _ & Hn2 & _). congruence. }
      rewrite lookup_alter_ne in Hc' by done.
      destruct (Inv_member_unique d m n b' b c' cb HI Hm' Hn Hb' Hb
                  Hc' Hcb Hid') as [_ ->]. done.
  - unfold loadAndDeleteSURBCtx. simpl_state.
    rewrite lookup_delete_ne by done. rewrite Hsb.
    unfold deref, node_Value. simpl_state.
    rewrite lookup_alter_ne by done. rewrite Hcb. simpl_state.
    rewrite Hnb. simpl_state. rewrite lookup_insert_eq. done.
Qed.

(** ** Runs that keep the invariants *)

Lemma filter_ne_split (n : nat) (l1 l2 : list nat) :
  NoDup (l1 ++ n :: l2) → filter (fun m => m ≠ n) (l1 ++ n :: l2) = l1 ++ l2.
Proof.
  intros Hnd. apply NoDup_app in Hnd as (_ & Hdis & Hnd2).
  apply NoDup_cons in Hnd2 as [Hn2 _].
  rewrite filter_app, filter_cons_False by (intros H; by apply H).
  rewrite !filter_ne_notin; [done|done|].
  intros Hn1. apply (Hdis n Hn1). apply list_elem_of_here.
Qed.

Lemma loadAndDelete_single d i a n :
  Inv d → surbStore d !! i = Some a →
  (etaNode <$> ctxHeap d !! a) = Some (Some n) → group_of d n = [a] →
  loadAndDeleteSURBCtx i d
    = Ok (Some a,
          set_etaNode a None (avl_Remove n (set_surbStore (delete i) d))) ∧
  Inv (set_etaNode a None (avl_Remove n (set_surbStore (delete i) d))).
Proof.
  intros HI Hst Hnode Hg.
  destruct (inv_store d HI i a Hst) as (c & n' & Hc & Hid & Hnode' & Hn & Ha).
  rewrite Hc in Hnode. cbn in Hnode. assert (n' = n) by congruence. subst n'.
  pose proof (group_of_Some d n [a] Hg ltac:(done)) as Hv.
  split.
  - unfold loadAndDeleteSURBCtx. rewrite Hst.
    unfold deref, node_Value. simpl_state. rewrite Hc. simpl_state.
    rewrite Hnode'. simpl_state. rewrite Hv. simpl_state.
    rewrite decide_False by (cbn; lia). simpl_state.
    rewrite decide_False by (intros H; by apply H). done.
  - set (d' := set_etaNode a None _).
    pose proof (Inv_NoDup d HI) as Hnd.
    apply list_elem_of_split in Hn as (l1 & l2 & Hl).
    assert (Htree : surbETAs d' = l1 ++ l2).
    { unfold d'. simpl_state. rewrite Hl. apply filter_ne_split.
      by rewrite <- Hl. }
    assert (Hin : ∀ x, x ∈ l1 ++ l2 → x ∈ surbETAs d ∧ x ≠ n).
    { intros x Hx. rewrite Hl in Hnd |- *.
      apply NoDup_app in Hnd as (_ & Hdis & Hnd2).
      apply NoDup_cons in Hnd2 as [Hn2 _].
      apply elem_of_app in Hx as [Hx|Hx].
      - split; [apply elem_of_app; by left|]. intros ->.
        apply (Hdis n Hx). apply list_elem_of_here.
      - split; [apply elem_of_app; right; by apply list_elem_of_further|].
        by intros ->. }
    assert (Hother : ∀ x b, x ∈ surbETAs d → x ≠ n → b ∈ group_of d x → b ≠ a).
    { intros x b Hx Hxn Hb ->. destruct (inv_nodes d HI x Hx) as (_ & _ & Hm).
      destruct (Hm a Hb) as (c' & Hc' & _ & Hnode'' & _). congruence. }
    assert (Hheap : ∀ b, b ≠ a → ctxHeap d' !! b = ctxHeap d !! b).
    { intros b Hb. unfold d'. simpl_state. by rewrite lookup_alter_ne. }
    assert (Hhead : ∀ x, x ∈ surbETAs d → x ≠ n → node_eta d' x = node_eta d x).
    { intros x Hx Hxn. destruct (inv_nodes d HI x Hx) as (Hne & _ & _).
      unfold node_eta. change (group_of d' x) with (group_of d x).
      destruct (group_of d x) as [|b0 g] eqn:Hgx; [done|].
      rewrite Hheap; [done|]. apply (Hother x); [done|done|].
      rewrite Hgx. apply list_elem_of_here. }
    split.
    + rewrite Htree. pose proof (inv_sorted d HI) as Hs. rewrite Hl in Hs.
      apply StronglySorted_app in Hs as (Hcross & Hs1 & Hs2).
      apply StronglySorted_cons in Hs2 as [_ Hs2].
      assert (Hsorted : StronglySorted
                (fun x y => node_eta d x < node_eta d y) (l1 ++ l2)).
      { apply StronglySorted_app. split; [|done].
        intros x y Hx Hy. apply Hcross; [done|by apply list_elem_of_further]. }
      eapply StronglySorted_ext_in; [exact Hsorted|].
      intros x y Hx Hy. destruct (Hin x Hx), (Hin y Hy).
      by rewrite !Hhead.
    + intros x. rewrite Htree. intros Hx. destruct (Hin x Hx) as [Hxt Hxn].
      change (group_of d' x) with (group_of d x).
      destruct (inv_nodes d HI x Hxt) as (Hne & Hndx & Hm).
      split; [done|]. split; [done|]. intros b Hb.
      destruct (Hm b Hb) as (cb & Hcb & Heta & Hnb & Hsb).
      assert (Hba : b ≠ a) by (by apply (Hother x)).
      exists cb. rewrite Hheap, Hhead by done.
      split; [done|]. split; [done|]. split; [done|].
      unfold d'. simpl_state. rewrite lookup_delete_ne; [done|].
      intros Heq. rewrite <- Heq in Hsb. congruence.
    + intros j b. unfold d' at 1. simpl_state.
      destruct (decide (i = j)) as [<-|Hij]; [by rewrite lookup_delete_eq|].
      rewrite lookup_delete_ne by done. intros Hj.
      destruct (inv_store d HI j b Hj) as (cb & x & Hcb & Hidb & Hnb & Hx & Hb).
      assert (Hba : b ≠ a).
      { intros ->. assert (cb = c) by congruence. subst cb. congruence. }
      assert (Hxn : x ≠ n).
      { intros ->. rewrite Hg in Hb. by apply list_elem_of_singleton in Hb. }
      exists cb, x. rewrite Hheap by done.
      split; [done|]. split; [done|]. split; [done|]. split; [|done].
      rewrite Htree. rewrite Hl in Hx.
      apply elem_of_app in Hx as [Hx|Hx]; apply elem_of_app; [by left|].
      apply elem_of_cons in Hx as [->|Hx]; [done|by right].
Qed.

Lemma Inv_step o d :
  Inv d → safe_op o d → ∃ d', apply_op o d = Ok d' ∧ Inv d'.
Proof.
  intros HI Hsafe.
  destruct o as [i e key|i|now DecoySlack]; cbn [apply_op safe_op] in *.
  - unfold store_new, new_surbCtx.
    destruct (storeSURBCtx_spec d i e key HI) as (n & tree1 & Hrun & Hpl).
    cbv zeta in Hrun. rewrite Hrun. eexists. split; [done|].
    apply Inv_stored; [done|done|apply fresh_ctx_None|done].
  - unfold alone in Hsafe. destruct (surbStore d !! i) as [a|] eqn:Hst.
    + destruct Hsafe as (n & Hnode & Hg).
      destruct (loadAndDelete_single d i a n HI Hst Hnode Hg) as [Hrun HI'].
      rewrite Hrun. eexists. split; [done|]. done.
    + rewrite loadAndDelete_absent by done. by exists d.
  - destruct (sweepSURBCtxs_spec now DecoySlack d HI) as (k & Hrun & _).
    cbv zeta in Hrun. rewrite Hrun. eexists. split; [done|].
    by apply Inv_swept.
Qed.

(** From a state that satisfies the invariants, every prefix of a safe run
    returns and leaves the store and the index in bijection. *)
Lemma safe_run_bijection ops : ∀ d k,
  Inv d → safe_run ops d →
  ∃ d', run_ops (take k ops) d = Ok d' ∧ Inv d' ∧ bijection d'.
Proof.
  induction ops as [|o ops IH]; intros d k HI Hsafe.
  - rewrite take_nil. exists d. split; [done|]. split; [done|].
    by apply Inv_bijection.
  - destruct k as [|k].
    + exists d. split; [done|]. split; [done|]. by apply Inv_bijection.
    + destruct Hsafe as [Ho Hrest].
      destruct (Inv_step o d HI Ho) as (d1 & Hrun & HI1).
      cbn [take run_ops]. rewrite Hrun. cbn [mbind result_bind].
      apply IH; [done|]. by apply Hrest.
Qed.

(** ** Token identifiers *)

Lemma BigEndian_roundtrip v :
  BigEndian_Uint64 (BigEndian_PutUint64 v) = wrapu64 v.
Proof.
  unfold BigEndian_Uint64, BigEndian_PutUint64.
  set (x := wrapu64 v).
  assert (Hx : 0 <= x < 2 ^ 64) by (apply Z.mod_pos_bound; lia).
  cbn [fmap list_fmap take foldl].
  rewrite !Z.mod_mod by lia.
  change (256 ^ 0) with 1. rewrite Z.div_1_r.
  assert (H8 : x / 256 ^ 7 / 256 = 0) 
    by (rewrite Z.div_div by lia; apply Z.div_small; lia).
  pose proof (Z.div_mod x 256 ltac:(lia)) as E0.
  pose proof (Z.div_mod (x / 256 ^ 1) 256 ltac:(lia)) as E1.
  pose proof (Z.div_mod (x / 256 ^ 2) 256 ltac:(lia)) as E2.
  pose proof (Z.div_mod (x / 256 ^ 3) 256 ltac:(lia)) as E3.
  pose proof (Z.div_mod (x / 256 ^ 4) 256 ltac:(lia)) as E4.
  pose proof (Z.div_mod (x / 256 ^ 5) 256 ltac:(lia)) as E5.
  pose proof (Z.div_mod (x / 256 ^ 6) 256 ltac:(lia)) as E6.
  pose proof (Z.div_mod (x / 256 ^ 7) 256 ltac:(lia)) as E7.
  rewrite !Z.div_div in * by lia.
  change (256 ^ 1) with 256 in *.
  change (256 * 256) with (256 ^ 2) in *.
  change (256 ^ 2 * 256) with (256 ^ 3) in *.
  change (256 ^ 3 * 256) with (256 ^ 4) in *.
  change (256 ^ 4 * 256) with (256 ^ 5) in *.
  change (256 ^ 5 * 256) with (256 ^ 6) in *.
  change (256 ^ 6 * 256) with (256 ^ 7) in *.
  lia.
Qed.

Lemma BigEndian_PutUint64_length v : length (BigEndian_PutUint64 v) = 8%nat.
Proof. reflexivity. Qed.

(** The id of the token a cycle issues is the random suffix, and the base
    is read back from the first half. *)
Lemma makeSURBID_parts env d :
  BigEndian_Uint64 (drop 0 (makeSURBID env d)) = wrapu64 (surbIDBase d) ∧
  BigEndian_Uint64 (drop 8 (makeSURBID env d)) = wrapu64 (rng_Uint64 env).
Proof.
  unfold makeSURBID. split.
  - rewrite drop_0. unfold BigEndian_Uint64 at 1.
    rewrite take_app_length'
      by apply (BigEndian_PutUint64_length (surbIDBase d)).
    apply BigEndian_roundtrip.
  - rewrite drop_app_length'
      by apply (BigEndian_PutUint64_length (surbIDBase d)).
    apply BigEndian_roundtrip.
Qed.

(** ** The retry loop of the packet builder *)

Section LoopProperties.

Variable TestPeriod : Z.
Variable UserForwardPayloadLength : nat.



(** Every run of the loop either changes nothing or is the body of one
    pass. *)
Lemma loop_attempts_cases n : ∀ k env surbID w,
  loop_attempts TestPeriod UserForwardPayloadLength n k env surbID w = Ok w ∨
  ∃ p fp t1 rp t2,
    (k <= p < k + n)%nat ∧
    path_New_fwd (attempts env p) = Some (fp, t1) ∧
    path_New_rev (attempts env p) = Some (rp, t2) ∧
    time_Sub t2 (time_Now (attempts env p)) < TestPeriod * 2 ∧
    loop_attempts TestPeriod UserForwardPayloadLength n k env surbID w =
      build_and_send UserForwardPayloadLength (attempts env p) fp rp
        (time_Sub t2 (time_Now (attempts env p))) surbID w.
Proof.
  induction n as [|n IH]; intros k env surbID w; [by left|].
  cbn [loop_attempts].
  destruct (path_New_fwd (attempts env k)) as [[fp t1]|] eqn:Hf; [|by left].
  destruct (path_New_rev (attempts env k)) as [[rp t2]|] eqn:Hr; [|by left].
  destruct (decide (time_Sub t2 (time_Now (attempts env k)) < TestPeriod * 2))
    as [Hlt|Hge].
  - right. exists k, fp, t1, rp, t2. split; [lia|]. done.
  - destruct (IH (S k) env surbID w)
      as [Hsame|(p & fp' & t1' & rp' & t2' & Hp & Hf' & Hr' & Hlt & Hrun)].
    + by left.
    + right. exists p, fp', t1', rp', t2'. split; [lia|]. done.
Qed.


Lemma avl_Insert_ctxHeap v d n d' :
  avl_Insert v d = Ok (n, d') → ctxHeap d' = ctxHeap d.
Proof.
  unfold avl_Insert.
  destruct (avl_search d v (fresh (dom (nodeHeap d))) (surbETAs d))
    as [[m|nodes]|msg]; cbn [mbind result_bind]; intros H; [| |done].
  - by injection H as _ <-.
  - by injection H as _ <-.
Qed.

(** A store that returns has put the context in the map under its id and
    has set its back pointer. *)
Lemma storeSURBCtx_ok ctx d d1 i e key :
  ctxHeap d !! ctx = Some (SurbCtx i e key None) →
  storeSURBCtx ctx d = Ok d1 →
  surbStore d1 !! i = Some ctx ∧
  ∃ n, ctxHeap d1 !! ctx = Some (SurbCtx i e key (Some n)).
Proof.
  intros Hc. unfold storeSURBCtx.
  destruct (avl_Insert (VSlice [ctx]) d) as [[n d0]|msg] eqn:Hins;
    cbn [mbind result_bind]; [|done].
  apply avl_Insert_ctxHeap in Hins.
  assert (Hd0 : deref d0 ctx = Ok (SurbCtx i e key None)).
  { unfold deref. by rewrite Hins, Hc. }
  rewrite Hd0. cbn [mbind result_bind].
  destruct (node_Value (set_etaNode ctx (Some n) d0) n) as [v|msg];
    cbn [mbind result_bind]; [|done].
  destruct (as_slice v) as [g|msg]; cbn [mbind result_bind]; [|done].
  destruct (index0 g) as [c0|msg]; cbn [mbind result_bind]; [|done].
  set (d2 := if decide (c0 ≠ ctx) then _ else _).
  assert (Hc2 : ctxHeap d2 !! ctx = Some (SurbCtx i e key (Some n))).
  { unfold d2. destruct (decide (c0 ≠ ctx)); simpl_state;
      by rewrite Hins, lookup_alter_eq, Hc. }
  unfold deref. rewrite Hc2. cbn [mbind result_bind id]. intros [= <-].
  split.
  - simpl_state. by rewrite lookup_insert_eq.
  - exists n. apply Hc2.
Qed.

Lemma dispatched_record_other e w :
  (∀ p, e ≠ EvDispatch p) → dispatched (record e w) = dispatched w.
Proof.
  intros He. unfold dispatched, record. cbn [trace].
  rewrite omap_app. cbn. destruct e; try by rewrite app_nil_r.
  by destruct (He p).
Qed.

(** What a pass that returns has done: the token is stored, and then
    either nothing more (no packet could be built or allocated), or one
    packet was handed to the connector. *)
Lemma build_and_send_ok e fp rp deltaT surbID w w' :
  build_and_send UserForwardPayloadLength e fp rp deltaT surbID w = Ok w' →
  let a := fresh (dom (ctxHeap (dec w))) in
  let i := BigEndian_Uint64 (drop 8 surbID) in
  let surb := (sphinx_NewSURB e rp).1.1 in
  let key := (sphinx_NewSURB e rp).1.2 in
  let payload := loop_payload UserForwardPayloadLength surb in
  ∃ d1 n,
    surbStore d1 !! i = Some a ∧
    ctxHeap d1 !! a
      = Some (SurbCtx i (wrap64 (monotime_Now e + deltaT)) key (Some n)) ∧
    ((w' = set_dec d1 (record (EvStore a) w) ∧
      (sphinx_NewPacket e fp payload = None ∨
       ∃ raw, sphinx_NewPacket e fp payload = Some raw ∧
              packet_New e raw = false)) ∨
     (∃ raw hop rest,
        sphinx_NewPacket e fp payload = Some raw ∧ fp = hop :: rest ∧
        w' = record (EvDispatch (OutPacket raw hop (dispatch_monotime_Now e)))
                    (set_dec d1 (record (EvStore a) w)))).
Proof.
  unfold build_and_send. destruct (sphinx_NewSURB e rp) as [[surb key] err].
  unfold new_surbCtx, d_storeSURBCtx. cbn [fst snd dec set_dec].
  set (a := fresh (dom (ctxHeap (dec w)))).
  set (i := BigEndian_Uint64 (drop 8 surbID)).
  set (C0 := SurbCtx i _ key None).
  destruct (storeSURBCtx a (set_ctxHeap <[a:=C0]> (dec w))) as [d1|msg] eqn:Hst;
    cbn [mbind result_bind]; [|done].
  apply (storeSURBCtx_ok a _ d1 i (wrap64 (monotime_Now e + deltaT)) key)
    in Hst as [Hs [n Hc]]; [|simpl_state; by rewrite lookup_insert_eq].
  intros Hrun. exists d1, n. split; [done|]. split; [done|].
  destruct (sphinx_NewPacket e fp (loop_payload UserForwardPayloadLength surb))
    as [raw|] eqn:Hpkt.
  - unfold dispatchPacket in Hrun.
    destruct (packet_New e raw) eqn:Hnew; cbn [negb] in Hrun.
    + destruct fp as [|hop rest]; [done|]. injection Hrun as <-.
      right. by exists raw, hop, rest.
    + injection Hrun as <-. left. split; [done|]. right. by exists raw.
  - injection Hrun as <-. left. split; [done|]. by left.
Qed.

End LoopProperties.

(** ** The packet builder *)

Lemma loop_payload_closed n surb :
  loop_payload n surb = [1; 0] ++ surb ++ replicate n 0.
Proof. reflexivity. Qed.




Lemma dispatched_stored d a w :
  dispatched (set_dec d (record (EvStore a) w)) = dispatched w.
Proof.
  unfold dispatched, set_dec, record. cbn [trace].
  rewrite omap_app. cbn. by rewrite app_nil_r.
Qed.

Section BuilderClaims.

Variable TestPeriod : Z.
Variable UserForwardPayloadLength : nat.

(** C5, amended. The payload of a loop packet is two header bytes, the
    flag 1 and a zero byte, then the SURB, then exactly
    [UserForwardPayloadLength] zero bytes; and a packet that a pass hands
    to the connector is what [sphinx.NewPacket] made of that payload. *)
Theorem loop_payload_format surb :
  loop_payload UserForwardPayloadLength surb
    = [1; 0] ++ surb ++ replicate UserForwardPayloadLength 0 ∧
  length (loop_payload UserForwardPayloadLength surb)
    = (2 + length surb + UserForwardPayloadLength)%nat ∧
  ∀ e fp rp deltaT surbID w w' pkt,
    build_and_send UserForwardPayloadLength e fp rp deltaT surbID w = Ok w' →
    pkt ∈ dispatched w' → pkt ∉ dispatched w →
    sphinx_NewPacket e fp
      ([1; 0] ++ (sphinx_NewSURB e rp).1.1
              ++ replicate UserForwardPayloadLength 0) = Some (Raw pkt).
Proof.
  split; [apply loop_payload_closed|]. split.
  { rewrite loop_payload_closed, !length_app, length_replicate. cbn. lia. }
  intros e fp rp deltaT surbID w w' pkt Hrun Hin Hnot.
  apply build_and_send_ok in Hrun. cbv zeta in Hrun.
  destruct Hrun as (d1 & n & _ & _ &
                    [[-> _]|(raw & hop & rest & Hpkt & _ & ->)]).
  - exfalso. apply Hnot. by rewrite dispatched_stored in Hin.
  - rewrite loop_payload_closed in Hpkt. rewrite Hpkt. f_equal.
    revert Hin. unfold dispatched. cbn [trace set_dec record].
    rewrite !omap_app. cbn. rewrite app_nil_r, elem_of_app.
    intros [Hin|Hin]; [done|]. apply list_elem_of_singleton in Hin.
    by subst pkt.
Qed.


(** C9. In a cycle of [sendLoopPacket] that hands a packet to the
    connector, the call of [storeSURBCtx] comes first: the cycle adds
    exactly the store and then the dispatch to the record of calls, and
    when the packet is dispatched the store maps the token id, the random
    suffix of the SURB id, to a context with that id, with
    [eta = monotime.Now() + deltaT] and with the key of the SURB. *)
Theorem store_before_dispatch env w w' :
  sendLoopPacket TestPeriod UserForwardPayloadLength env w = Ok w' →
  dispatched w' ≠ dispatched w →
  ∃ p fp t1 rp t2 a n pkt,
    let e := attempts env p in
    let deltaT := time_Sub t2 (time_Now e) in
    let i := wrapu64 (rng_Uint64 env) in
    path_New_fwd e = Some (fp, t1) ∧ path_New_rev e = Some (rp, t2) ∧
    trace w' = trace w ++ [EvStore a; EvDispatch pkt] ∧
    surbStore (dec w') !! i = Some a ∧
    ctxHeap (dec w') !! a
      = Some (SurbCtx i (wrap64 (monotime_Now e + deltaT))
                      (sphinx_NewSURB e rp).1.2 (Some n)).
Proof.
  intros Hrun Hdisp. unfold sendLoopPacket in Hrun. cbv zeta in Hrun.
  destruct (loop_attempts_cases TestPeriod UserForwardPayloadLength
              maxAttempts 0 env (makeSURBID env (dec w)) w)
    as [Hsame|(p & fp & t1 & rp & t2 & _ & Hf & Hr & _ & Hbody)].
  { rewrite Hsame in Hrun. injection Hrun as <-. done. }
  rewrite Hbody in Hrun. apply build_and_send_ok in Hrun. cbv zeta in Hrun.
  rewrite (proj2 (makeSURBID_parts env (dec w))) in Hrun.
  destruct Hrun as (d1 & n & Hst & Hc &
                    [[-> _]|(raw & hop & rest & Hpkt & _ & ->)]).
  - exfalso. apply Hdisp. apply dispatched_stored.
  - exists p, fp, t1, rp, t2, (fresh (dom (ctxHeap (dec w)))), n.
    eexists. cbv zeta. split; [done|]. split; [done|].
    cbn [trace dec set_dec record]. rewrite <- app_assoc. done.
Qed.



End BuilderClaims.

(** ** The packet builder at concrete inputs *)



(** The same cycle when [sphinx.NewSURB] fails and returns no SURB and no
    key: the failure is logged and the pass goes on, stores a token with
    an empty key and dispatches a packet whose payload has no SURB. *)
Example surb_failure_goes_on :
  sphinx_NewSURB (attempts (demo_env true true) 0) [[2]; [1]] = ([], [], true) ∧
  ∃ w', sendLoopPacket 60000000000 8 (demo_env true true) demo_world = Ok w' ∧
        store_ids (dec w') = {[77]} ∧
        sprpKey <$> ctxHeap (dec w') !! 0%nat = Some [] ∧
        trace w' = [EvStore 0%nat; EvDispatch (OutPacket [42] [1] 7001)].
Proof.
  split; [done|]. eexists. split; [by vm_compute|].
  split; [by vm_compute|]. split; by vm_compute.
Qed.


(** C5, as stated, fails at the second byte: it is a zero byte, the SURB
    starts at the third, and the payload is longer than the user payload
    length. *)
Lemma loop_payload_second_byte :
  loop_payload 8 [5; 6] = [1; 0; 5; 6; 0; 0; 0; 0; 0; 0; 0; 0] ∧
  claimed_payload 8 [5; 6] = [1; 5; 6; 0; 0; 0; 0; 0] ∧
  loop_payload 8 [5; 6] !! 1%nat = Some 0 ∧
  claimed_payload 8 [5; 6] !! 1%nat = Some 5 ∧
  loop_payload 8 [5; 6] ≠ claimed_payload 8 [5; 6].
Proof. repeat split; done. Qed.

Lemma store_before_dispatch_witness :
  ∃ w', sendLoopPacket 60000000000 8 (demo_env false true) demo_world = Ok w' ∧
        dispatched w' ≠ dispatched demo_world ∧
    ∃ p fp t1 rp t2 a n pkt,
      let e := attempts (demo_env false true) p in
      let deltaT := time_Sub t2 (time_Now e) in
      let i := wrapu64 (rng_Uint64 (demo_env false true)) in
      path_New_fwd e = Some (fp, t1) ∧ path_New_rev e = Some (rp, t2) ∧
      trace w' = trace demo_world ++ [EvStore a; EvDispatch pkt] ∧
      surbStore (dec w') !! i = Some a ∧
      ctxHeap (dec w') !! a
        = Some (SurbCtx i (wrap64 (monotime_Now e + deltaT))
                        (sphinx_NewSURB e rp).1.2 (Some n)).
Proof.
  eexists. split; [by vm_compute|]. split; [by vm_compute|].
  apply (store_before_dispatch 60000000000 8 (demo_env false true) demo_world);
    by vm_compute.
Defined.


(** ** The reply handler *)

(** C8. A SURB reply whose id carries a base other than [surbIDBase] is
    dropped: [OnPacket] returns with the dropped counter one higher, the
    decoy (store, index and heaps) as it was, and no call of
    [loadAndDeleteSURBCtx] (or any other) added to the record of calls. *)
Theorem foreign_base_dropped DecryptSURBPayload pkt w :
  IsSURBReply pkt = true →
  BigEndian_Uint64 (drop 0 (SurbReply_ID pkt)) ≠ surbIDBase (dec w) →
  ∃ w', OnPacket DecryptSURBPayload pkt w = Ok w' ∧
        packetsDropped w' = S (packetsDropped w) ∧
        dec w' = dec w ∧ trace w' = trace w ∧
        ignoredPKIDocs w' = ignoredPKIDocs w ∧ pkiDocs w' = pkiDocs w.
Proof.
  intros Hreply Hbase. exists (packetsDropped_Inc w). split; [|done].
  unfold OnPacket. rewrite Hreply. cbn [negb].
  destruct (decide (ConstantTimeCompare (Recipient_ID pkt)
                                        (recipient (dec w)) ≠ 1)); [done|].
  by rewrite decide_True.
Qed.

Lemma foreign_base_dropped_witness :
  IsSURBReply foreign_packet = true ∧
  BigEndian_Uint64 (drop 0 (SurbReply_ID foreign_packet))
    ≠ surbIDBase (dec demo_world) ∧
  ∃ w', OnPacket (fun _ _ => None) foreign_packet demo_world = Ok w' ∧
        packetsDropped w' = S (packetsDropped demo_world) ∧
        dec w' = dec demo_world ∧ trace w' = trace demo_world ∧
        ignoredPKIDocs w' = ignoredPKIDocs demo_world ∧
        pkiDocs w' = pkiDocs demo_world.
Proof.
  split; [reflexivity|]. split; [by vm_compute|].
  apply (foreign_base_dropped (fun _ _ => None) foreign_packet demo_world);
    [reflexivity | by vm_compute].
Defined.

(** With the right recipient and the right base the handler does look the
    id up. *)
Lemma matching_base_looks_up DecryptSURBPayload pkt w w' :
  IsSURBReply pkt = true →
  Recipient_ID pkt = recipient (dec w) →
  BigEndian_Uint64 (drop 0 (SurbReply_ID pkt)) = surbIDBase (dec w) →
  OnPacket DecryptSURBPayload pkt w = Ok w' →
  EvLoadAndDelete (BigEndian_Uint64 (drop 8 (SurbReply_ID pkt))) ∈ trace w'.
Proof.
  intros Hreply Hrcpt Hbase. unfold OnPacket, ConstantTimeCompare.
  rewrite Hreply, Hrcpt. cbn [negb].
  rewrite (decide_True (P := recipient (dec w) = recipient (dec w))) by done.
  rewrite decide_False by (intros H; by apply H).
  rewrite decide_False by (intros H; by apply H).
  unfold d_loadAndDeleteSURBCtx.
  destruct (loadAndDeleteSURBCtx _ (dec w)) as [[r d]|]; [|done].
  cbn [mbind result_bind].
  set (i := BigEndian_Uint64 (drop 8 (SurbReply_ID pkt))).
  assert (Hin : ∀ w0, EvLoadAndDelete i
                        ∈ trace (set_dec d (record (EvLoadAndDelete i) w0))).
  { intros w0. cbn [trace set_dec record]. apply elem_of_app. right.
    apply list_elem_of_here. }
  destruct r as [a|].
  - destruct (deref _ a) as [c|]; cbn [mbind result_bind]; [|done].
    destruct (DecryptSURBPayload _ _); intros [= <-]; apply Hin.
  - intros [= <-]. apply Hin.
Qed.

(** ** The scheduler *)

Section SchedulerClaims.

Variable TestPeriod : Z.
Variable UserForwardPayloadLength : nat.
Variable SURBLength : nat.
Variable LayerProvider : Z.
Variable LoopCapability : string.






End SchedulerClaims.

(** ** The scheduler at concrete inputs *)



